(** * Spot the Manipulation: the manifest loader and the round engine of app.py

    A shallow embedding of [app.py].  Python values are modelled as the code
    has them: [str] as [string] (ASCII characters), [int] as [Z], the round
    counter as [nat] (it starts at 0 and is only ever incremented), the pandas
    frame as its column labels and its rows of cells, [st.session_state] as a
    record for the four application keys plus a finite map for the
    round-indexed widget keys.  The collaborators the script drives (pandas,
    the file system, PIL, the Streamlit run loop) are modelled by what the
    script observes of them; each such model says so where it is defined. *)

From Stdlib Require Import ZArith String Ascii.
From Stdlib Require Import Floats.SpecFloat.
From stdpp Require Import gmap strings list pretty.

Local Open Scope Z_scope.
Local Open Scope string_scope.

(** ** Exceptions and results *)

Inductive exn :=
  | ValueError (msg : string)
  | KeyError (key : string)
  | IndexError
  | OSError (path : string)
  | UnidentifiedImageError (path : string)
  | ZeroDivisionError
  | OverflowError
  | StopException.

Inductive result (A : Type) :=
  | Ok (a : A)
  | Raise (e : exn).
Arguments Ok {A} a.
Arguments Raise {A} e.

Global Instance result_ret : MRet result := λ A a, Ok a.

Global Instance result_bind : MBind result := λ A B k r,
  match r with
  | Ok a => k a
  | Raise e => Raise e
  end.

(** ** Python [str] methods used by the script *)

Module pystr.

(** [str.isspace] on the ASCII range: TAB..CR, FS..US and SPACE. *)
Definition isspace (c : ascii) : bool :=
  let n := nat_of_ascii c in
  ((9 <=? n)%nat && (n <=? 13)%nat) || ((28 <=? n)%nat && (n <=? 32)%nat).

Fixpoint lstrip (s : string) : string :=
  match s with
  | EmptyString => EmptyString
  | String c s' => if isspace c then lstrip s' else s
  end.

Fixpoint rstrip (s : string) : string :=
  match s with
  | EmptyString => EmptyString
  | String c s' =>
      match rstrip s' with
      | EmptyString => if isspace c then EmptyString else String c EmptyString
      | r => String c r
      end
  end.

(** [s.strip()] *)
Definition strip (s : string) : string := rstrip (lstrip s).

Definition lower_ascii (c : ascii) : ascii :=
  let n := nat_of_ascii c in
  if ((65 <=? n)%nat && (n <=? 90)%nat) then ascii_of_nat (n + 32) else c.

(** [s.lower()] *)
Fixpoint lower (s : string) : string :=
  match s with
  | EmptyString => EmptyString
  | String c s' => String (lower_ascii c) (lower s')
  end.

(** [s.replace(old, new)] for single characters. *)
Fixpoint replace (old new : ascii) (s : string) : string :=
  match s with
  | EmptyString => EmptyString
  | String c s' =>
      String (if Ascii.eqb c old then new else c) (replace old new s')
  end.

(** [s.split(sep)] for a one-character separator: never the empty list. *)
Fixpoint split (sep : ascii) (s : string) : list string :=
  match s with
  | EmptyString => [EmptyString]
  | String c s' =>
      if Ascii.eqb c sep then EmptyString :: split sep s'
      else match split sep s' with
           | h :: t => String c h :: t
           | [] => [String c EmptyString]
           end
  end.

(** [repr] of a list of strings that hold no quote or escape, as in
    [f"{sorted(missing_cols)}"]. *)
Definition repr_list (l : list string) : string :=
  "[" +:+ String.concat ", " (map (λ s, "'" +:+ s +:+ "'") l) +:+ "]".

End pystr.

(** ** [os.path] on a POSIX platform *)

Module posixpath.

Definition sep : ascii := "/"%char.

(** The backslash, written by its code. *)
Definition backslash : ascii := ascii_of_nat 92.

Definition startswith_sep (s : string) : bool :=
  match s with
  | String c _ => Ascii.eqb c sep
  | EmptyString => false
  end.

Fixpoint endswith_sep (s : string) : bool :=
  match s with
  | EmptyString => false
  | String c EmptyString => Ascii.eqb c sep
  | String _ s' => endswith_sep s'
  end.

(** One iteration of the loop of [posixpath.join]. *)
Definition join2 (path b : string) : string :=
  if startswith_sep b then b
  else if String.eqb path "" || endswith_sep path then path +:+ b
  else path +:+ String sep b.

(** [os.path.join(a, *p)] *)
Definition join (a : string) (p : list string) : string :=
  fold_left join2 p a.

End posixpath.

(** ** The environment of a run

    What the process reads and never writes: the manifest files as
    [pd.read_csv(path, dtype=str)] parses them, the tree under which the
    images live, and [WWW_DIR]. *)

(** A cell of a frame read with [dtype=str]: a string, or NaN. *)
Definition cell := option string.

Record DataFrame := {
  columns : list string;
  rows : list (list cell);
}.

(** What a path names on disk; [Picture w h] is a file PIL can open, of
    native size [w] by [h]. *)
Inductive node :=
  | Directory
  | Blob
  | Picture (w h : Z).

Record Env := {
  read_csv : string → result DataFrame;
  fs : string → option node;
  WWW_DIR : string;
}.

Definition ROUNDS : Z := 10.

(** [os.path.exists] *)
Definition os_path_exists (E : Env) (p : string) : bool :=
  match fs E p with
  | Some _ => true
  | None => false
  end.

(** ** Helpers (app.py, lines 13-21) *)

Definition _norm_rel_path (rel : string) : string :=
  let rel := pystr.strip (pystr.replace posixpath.backslash "/"%char rel) in
  if String.eqb rel "" then rel
  else match pystr.split "/"%char rel with
       | a :: p => posixpath.join a p
       | [] => rel
       end.

Definition _abs_from_rel (E : Env) (rel : string) : string :=
  posixpath.join (WWW_DIR E) [_norm_rel_path rel].

(** ** The pandas operations of [load_metadata]

    A frame is its list of column labels and its rows, each row a list of
    cells in column order.  A label that occurs once names a column, looked
    up at its position; a label that occurs more than once names a frame of
    columns, which the mask of line 46 cannot use. *)

Module pandas.

Fixpoint get_loc (label : string) (cols : list string) : option nat :=
  match cols with
  | [] => None
  | c :: cols' =>
      if String.eqb c label then Some 0%nat else S <$> get_loc label cols'
  end.

(** [row[label]]: a short row is padded with NaN. *)
Definition getitem (cols : list string) (r : list cell) (label : string) : cell :=
  match get_loc label cols with
  | Some i => default None (r !! i)
  | None => None
  end.

(** [df[label]] is a frame, not a column, when the label is duplicated. *)
Definition duplicated (cols : list string) (label : string) : bool :=
  (1 <? length (List.filter (String.eqb label) cols))%nat.

(** [df.applymap(f)] with [f] acting on the [str] cells only. *)
Definition applymap (f : string → string) (rs : list (list cell)) : list (list cell) :=
  map (map (fmap f)) rs.

(** [isna] of a cell. *)
Definition isna (c : cell) : bool :=
  match c with
  | None => true
  | Some _ => false
  end.

(** [df.dropna(subset=labels)] *)
Definition dropna (cols : list string) (subset : list string)
    (rs : list (list cell)) : list (list cell) :=
  List.filter (λ r, forallb (λ l, negb (isna (getitem cols r l))) subset) rs.

(** [series != ""], elementwise; NaN differs from every string. *)
Definition ne_str (c : cell) (s : string) : bool :=
  match c with
  | Some x => negb (String.eqb x s)
  | None => true
  end.

(** [df.head(n)]: the first [n] rows, or all but the last [-n]. *)
Definition head (n : Z) (rs : list (list cell)) : list (list cell) :=
  if (0 <=? n)%Z then take (Z.to_nat n) rs
  else take (length rs - Z.to_nat (- n))%nat rs.

(** The entropy [df.sample(frac=1, random_state=None)] draws from the
    operating system, as the sequence of numbers it will yield. *)
Definition tape := list nat.

(** A permutation by repeated selection: the next number of the tape,
    reduced modulo the rows that are left, picks the next row. *)
Fixpoint permute {A} (n : nat) (t : tape) (l : list A) : list A :=
  match n with
  | O => []
  | S n' =>
      let k := (hd 0%nat t `mod` length l)%nat in
      match l !! k with
      | Some x => x :: permute n' (tl t) (delete k l)
      | None => []
      end
  end.

(** [df.sample(frac=1)]: the rows in a random order, and the tape left. *)
Definition sample {A} (t : tape) (l : list A) : list A * tape :=
  (permute (length l) t l, drop (length l) t).

End pandas.

(** ** The manifest loader (app.py, lines 24-63) *)

Definition required : list string := ["fake_path"; "real_path"].

(** [sorted(required - set(df.columns))]; [required] is listed in sorted
    order, so filtering it yields the sorted difference. *)
Definition missing_cols (cols : list string) : list string :=
  filter (λ c, c ∉ cols) required.

(** The inner function [exists_row] of [load_metadata]. *)
Definition exists_row (E : Env) (cols : list string) (row : list cell) : bool :=
  match pandas.getitem cols row "fake_path", pandas.getitem cols row "real_path" with
  | Some f, Some r =>
      os_path_exists E (_abs_from_rel E f) && os_path_exists E (_abs_from_rel E r)
  | _, _ => false
  end.

(** Line 34: the labels, trimmed then lowercased. *)
Definition normalised_columns (d : DataFrame) : list string :=
  map (λ c, pystr.lower (pystr.strip c)) (columns d).

(** The [ValueError] of line 39, which the specification calls SchemaError. *)
Definition SchemaError (missing : list string) : exn :=
  ValueError ("CSV missing required columns: " +:+ pystr.repr_list missing).

(** The mask of line 46. *)
Definition paths_not_empty (cols : list string) (r : list cell) : bool :=
  pandas.ne_str (pandas.getitem cols r "fake_path") ""
  && pandas.ne_str (pandas.getitem cols r "real_path") "".

(** The body of [load_metadata], without its cache.  Line 46 combines the
    two masks with [&]: when a required label is duplicated, one operand is
    a frame, and pandas refuses to align it with the column on the other
    side. *)
Definition load_metadata (E : Env) (csv_path : string) (rounds : Z)
    (t : pandas.tape) : result DataFrame * pandas.tape :=
  match read_csv E csv_path with
  | Raise e => (Raise e, t)
  | Ok df =>
      let cols := normalised_columns df in
      let missing := missing_cols cols in
      if bool_decide (missing ≠ []) then (Raise (SchemaError missing), t)
      else
        let rs := pandas.applymap pystr.strip (rows df) in
        let rs := pandas.dropna cols ["fake_path"; "real_path"] rs in
        if pandas.duplicated cols "fake_path" || pandas.duplicated cols "real_path"
        then (Raise (ValueError "cannot reindex on an axis with duplicate labels"), t)
        else
        let rs := List.filter (paths_not_empty cols) rs in
        if (length rs =? 0)%nat then (Ok {| columns := cols; rows := rs |}, t)
        else
          let rs := List.filter (exists_row E cols) rs in
          if (length rs =? 0)%nat then (Ok {| columns := cols; rows := rs |}, t)
          else
            let '(rs, t') := pandas.sample t rs in
            (Ok {| columns := cols;
                   rows := pandas.head (Z.min rounds (Z.of_nat (length rs))) rs |}, t')
  end.

(** The rows of a frame that pass lines 42-57, in manifest order: what the
    shuffle and the truncation of lines 62-63 then work on. *)
Definition surviving_rows (E : Env) (d : DataFrame) : list (list cell) :=
  let cols := normalised_columns d in
  List.filter (exists_row E cols)
    (List.filter (paths_not_empty cols)
       (pandas.dropna cols ["fake_path"; "real_path"]
          (pandas.applymap pystr.strip (rows d)))).


(** [st.cache_data]: results memoised on the call's arguments, shared by
    every session of the process; a call that raises stores nothing. *)
Definition load_metadata_cached (E : Env) (csv_path : string) (rounds : Z)
    (cache : gmap (string * Z) DataFrame) (t : pandas.tape)
    : result DataFrame * gmap (string * Z) DataFrame * pandas.tape :=
  match cache !! (csv_path, rounds) with
  | Some df => (Ok df, cache, t)
  | None =>
      match load_metadata E csv_path rounds t with
      | (Ok df, t') => (Ok df, <[(csv_path, rounds) := df]> cache, t')
      | (Raise e, t') => (Raise e, cache, t')
      end
  end.

(** ** Python [float]: IEEE 754 binary64 *)

Module pyfloat.

Definition prec : Z := 53.
Definition emax : Z := 1024.

(** [float(n)] for an [int]: the nearest double, ties to even. *)
Definition of_int (n : Z) : result spec_float :=
  match binary_normalize prec emax n 0 false with
  | S754_infinity _ => Raise OverflowError
  | f => Ok f
  end.

(** [x / y] *)
Definition truediv (x y : spec_float) : result spec_float :=
  match y with
  | S754_zero _ => Raise ZeroDivisionError
  | _ => Ok (SFdiv prec emax x y)
  end.

(** [x * y] *)
Definition mul (x y : spec_float) : spec_float := SFmul prec emax x y.

(** [int(x)]: truncation towards zero. *)
Definition to_int (x : spec_float) : result Z :=
  match x with
  | S754_zero _ => Ok 0%Z
  | S754_finite s m e =>
      let a := if (0 <=? e)%Z then Z.shiftl (Z.pos m) e
               else Z.shiftr (Z.pos m) (- e) in
      Ok (if s then - a else a)%Z
  | S754_infinity _ => Raise OverflowError
  | S754_nan => Raise (ValueError "cannot convert float NaN to integer")
  end.

End pyfloat.

(** ** PIL images, by their size and the calls that produced them *)

Module PIL.

Inductive Resampling := NEAREST | BILINEAR | BICUBIC | LANCZOS.

Inductive Image :=
  | Opened (path : string) (w h : Z)
  | Resized (src : Image) (w h : Z) (resample : Resampling).

Definition width (img : Image) : Z :=
  match img with
  | Opened _ w _ => w
  | Resized _ w _ _ => w
  end.

Definition height (img : Image) : Z :=
  match img with
  | Opened _ _ h => h
  | Resized _ _ h _ => h
  end.

(** [Image.open(path)] *)
Definition open (E : Env) (path : string) : result Image :=
  match fs E path with
  | Some (Picture w h) => Ok (Opened path w h)
  | Some Blob => Raise (UnidentifiedImageError path)
  | Some Directory => Raise (OSError path)
  | None => Raise (OSError path)
  end.

(** [img.resize((w, h), resample)]; PIL refuses an empty target. *)
Definition resize (img : Image) (w h : Z) (resample : Resampling) : result Image :=
  if (w <? 1)%Z || (h <? 1)%Z then Raise (ValueError "height and width must be > 0")
  else Ok (Resized img w h resample).

End PIL.

(** ** What a run of the script puts on the page *)

Inductive button := RevealOriginal | Next | PlayAgain.

Global Instance button_eq_dec : EqDecision button.
Proof. solve_decision. Defined.

Record Answer := {
  guess : string;
  correct : bool;
}.

Inductive element :=
  | Title
  | NoValidRows
  | RoundHeader (round total : nat)
  | TextInput (key : string)
  | Button (b : button)
  | Picture_ (img : PIL.Image) (caption : string)
  | Warning (msg : string)
  | Comment (c : cell)
  | Radio (options : list string) (key : string)
  | Summary (correct_answers total : nat)
  | Table (answers : list Answer)
  | Traceback (e : exn).

(** ** [load_image] (app.py, lines 65-80)

    [rel_path] is a cell: [None] is a value that is not a [str].  The result
    comes with the warnings written to the page. *)

Definition load_image (E : Env) (rel_path : cell) (max_width : Z)
    : list element * result (option PIL.Image) :=
  match rel_path with
  | None => ([], Ok None)
  | Some rel =>
      if String.eqb (pystr.strip rel) "" then ([], Ok None)
      else
        let abs_path := _abs_from_rel E rel in
        if negb (os_path_exists E abs_path) then
          ([Warning ("Missing image: " +:+ abs_path)], Ok None)
        else
          ([], img ← PIL.open E abs_path;
               if (max_width <? PIL.width img)%Z then
                 w ← pyfloat.of_int (PIL.width img);
                 mw ← pyfloat.of_int max_width;
                 ratio ← pyfloat.truediv mw w;
                 h ← pyfloat.of_int (PIL.height img);
                 h' ← pyfloat.to_int (pyfloat.mul h ratio);
                 img' ← PIL.resize img max_width h' PIL.LANCZOS;
                 mret (Some img')
               else mret (Some img))
  end.

(** The specification's condition for an absent image: the path is not a
    string, or blank, or names nothing under the asset root. *)
Definition absent (E : Env) (rel_path : cell) : Prop :=
  match rel_path with
  | None => True
  | Some rel =>
      pystr.strip rel = "" ∨ os_path_exists E (_abs_from_rel E rel) = false
  end.

(** ** Session state (app.py, lines 82-102)

    [st.session_state] holds the four keys the script sets together on the
    first run, and the values of the widgets it renders under keys built
    from the round index. *)

Record SessionState := {
  df : DataFrame;
  step : nat;
  answers : list Answer;
  show_real : bool;
  widgets : gmap string string;
}.

(** [f"guess_{st.session_state.step}"] and [f"correct_{st.session_state.step}"] *)
Definition guess_key (n : nat) : string := "guess_" +:+ pretty n.
Definition correct_key (n : nat) : string := "correct_" +:+ pretty n.

Definition next_round (s : SessionState) : SessionState :=
  {| df := df s; step := step s + 1; answers := answers s;
     show_real := false; widgets := widgets s |}.

(** [st.session_state[key]] on a widget key. *)
Definition session_getitem (s : SessionState) (key : string) : result string :=
  match widgets s !! key with
  | Some v => Ok v
  | None => Raise (KeyError key)
  end.

Definition record_answer (s : SessionState) : result SessionState :=
  guess_text ← session_getitem s (guess_key (step s));
  correct_choice ← session_getitem s (correct_key (step s));
  mret (next_round
          {| df := df s; step := step s;
             answers := answers s ++ [ {| guess := guess_text;
                                          correct := String.eqb correct_choice "Yes" |} ];
             show_real := show_real s; widgets := widgets s |}).

(** ** One run of the script

    A run carries the session, what the process shares between sessions
    (the cache of [load_metadata] and the entropy still to be drawn) and the
    page written so far.  A statement that raises ends the run and keeps
    what was done before it. *)

Record Process := {
  cache : gmap (string * Z) DataFrame;
  entropy : pandas.tape;
}.

Record Run := {
  ss : SessionState;
  proc : Process;
  out : list element;
}.

Definition script (A : Type) : Type := Run → result A * Run.

Global Instance script_ret : MRet script := λ A a r, (Ok a, r).

Global Instance script_bind : MBind script := λ A B k m r,
  match m r with
  | (Ok a, r') => k a r'
  | (Raise e, r') => (Raise e, r')
  end.

Definition get_session : script SessionState := λ r, (Ok (ss r), r).

Definition put_session (s : SessionState) : script () := λ r,
  (Ok (), {| ss := s; proc := proc r; out := out r |}).

Definition emit (es : list element) : script () := λ r,
  (Ok (), {| ss := ss r; proc := proc r; out := out r ++ es |}).

Definition raise {A} (e : exn) : script A := λ r, (Raise e, r).

Definition skip : script () := mret ().

(** A widget with a key keeps the value the session holds for it, and is
    given its default when the session holds none. *)
Definition register (key default : string) : script string := λ r,
  match widgets (ss r) !! key with
  | Some v => (Ok v, r)
  | None =>
      (Ok default,
       {| ss := {| df := df (ss r); step := step (ss r); answers := answers (ss r);
                   show_real := show_real (ss r);
                   widgets := <[key := default]> (widgets (ss r)) |};
          proc := proc r; out := out r |})
  end.

(** [st.text_input(label, key=key)] *)
Definition st_text_input (key : string) : script string :=
  v ← register key ""; emit [TextInput key];; mret v.

(** [st.radio(label, options, index=index, key=key)] *)
Definition st_radio (options : list string) (index : nat) (key : string) : script string :=
  v ← register key (default "" (options !! index));
  emit [Radio options key];; mret v.

(** [st.button(label)]: true in the run its click started. *)
Definition st_button (pressed : option button) (b : button) : script bool :=
  emit [Button b];; mret (bool_decide (pressed = Some b)).

(** [st.stop()] *)
Definition st_stop : script () := raise StopException.

(** [df.iloc[i]] *)
Definition iloc (d : DataFrame) (i : nat) : script (list cell) :=
  match rows d !! i with
  | Some row => mret row
  | None => raise IndexError
  end.

(** [row.get(label, default)] *)
Definition row_get (cols : list string) (row : list cell) (label : string)
    (dflt : cell) : cell :=
  match pandas.get_loc label cols with
  | Some i => default None (row !! i)
  | None => dflt
  end.

(** Truth value of a cell: a non-empty string, or NaN. *)
Definition truthy (c : cell) : bool :=
  match c with
  | Some s => negb (String.eqb s "")
  | None => true
  end.

(** [load_image] called from the script: its warnings go to the page. *)
Definition call_load_image (E : Env) (rel_path : cell) : script (option PIL.Image) := λ r,
  let '(ws, res) := load_image E rel_path 450 in
  (res, {| ss := ss r; proc := proc r; out := out r ++ ws |}).

(** [st.image(img, caption=caption)] under [if img:]. *)
Definition show_image (img : option PIL.Image) (caption : string) : script () :=
  match img with
  | Some i => emit [Picture_ i caption]
  | None => skip
  end.

(** [st.markdown(f"**Comment:** {comment}")] under [if comment:]. *)
Definition show_comment (comment : cell) : script () :=
  if truthy comment then emit [Comment comment] else skip.

(** [load_metadata] called from the script, through its cache. *)
Definition call_load_metadata (E : Env) (csv_path : string) (rounds : Z)
    : script DataFrame := λ r,
  let '(res, c, t) := load_metadata_cached E csv_path rounds
                        (cache (proc r)) (entropy (proc r)) in
  (res, {| ss := ss r; proc := {| cache := c; entropy := t |}; out := out r |}).

Definition set_show_real (b : bool) : script () :=
  s ← get_session;
  put_session {| df := df s; step := step s; answers := answers s;
                 show_real := b; widgets := widgets s |}.

(** The page (app.py, lines 104-178), for a session already initialised. *)
Definition page (E : Env) (pressed : option button) : script () :=
  s ← get_session;
  let d := df s in
  let total := length (rows d) in
  emit [Title];;
  if (total =? 0)%nat then emit [NoValidRows];; st_stop
  else if (step s <? total)%nat then
    row ← iloc d (step s);
    let fake_rel := pandas.getitem (columns d) row "fake_path" in
    let real_rel := pandas.getitem (columns d) row "real_path" in
    let comment := row_get (columns d) row "comment" (Some "") in
    emit [RoundHeader (step s + 1) total];;
    st_text_input (guess_key (step s));;
    (if negb (show_real s) then
       b ← st_button pressed RevealOriginal;
       if (b : bool) then set_show_real true else skip
     else skip : script ());;
    fake_img ← call_load_image E fake_rel;
    show_image fake_img "Fake Image";;
    s ← get_session;
    if show_real s then
      show_comment comment;;
      fi ← call_load_image E fake_rel;
      show_image fi "Fake";;
      ri ← call_load_image E real_rel;
      show_image ri "Real";;
      st_radio ["Yes"; "No"] 0 (correct_key (step s));;
      st_button pressed Next;;
      skip
    else skip
  else
    let correct_answers := length (List.filter correct (answers s)) in
    emit [Summary correct_answers total; Table (answers s)];;
    b ← st_button pressed PlayAgain;
    if (b : bool) then
      d' ← call_load_metadata E "manipulation_info.csv" ROUNDS;
      s ← get_session;
      put_session {| df := d'; step := 0; answers := []; show_real := false;
                     widgets := widgets s |}
    else skip.

(** ** The Streamlit run loop

    Between two runs the browser shows the page of the last run; every
    interaction with it starts a new run of the whole script. *)

Record World := {
  session : option SessionState;
  process : Process;
  screen : list element;
}.

Definition widget_key (e : element) : option string :=
  match e with
  | TextInput key => Some key
  | Radio _ key => Some key
  | _ => None
  end.

Definition widget_keys (pg : list element) : list string :=
  omap widget_key pg.

(** When a run ends the session forgets the value of every widget the run
    did not render. *)
Definition end_run (r : Run) : World :=
  {| session :=
       Some {| df := df (ss r); step := step (ss r); answers := answers (ss r);
               show_real := show_real (ss r);
               widgets := filter (λ kv, kv.1 ∈ widget_keys (out r)) (widgets (ss r)) |};
     process := proc r;
     screen := out r |}.

(** [st.stop()] ends the run quietly; any other exception is shown. *)
Definition finish (res : result () * Run) : World :=
  match res with
  | (Ok _, r) => end_run r
  | (Raise StopException, r) => end_run r
  | (Raise e, r) =>
      end_run {| ss := ss r; proc := proc r; out := out r ++ [Traceback e] |}
  end.

(** A run of the script: session state init (lines 95-102), then the page.
    The four keys are absent together, on the first run of a session and as
    long as the manifest cannot be loaded. *)
Definition run (E : Env) (pressed : option button) (w : World) : World :=
  match session w with
  | Some s => finish (page E pressed {| ss := s; proc := process w; out := [] |})
  | None =>
      match load_metadata_cached E "manipulation_info.csv" ROUNDS
              (cache (process w)) (entropy (process w)) with
      | (Ok d, c, t) =>
          finish (page E pressed
                    {| ss := {| df := d; step := 0; answers := [];
                                show_real := false; widgets := ∅ |};
                       proc := {| cache := c; entropy := t |}; out := [] |})
      | (Raise e, c, t) =>
          {| session := None; process := {| cache := c; entropy := t |};
             screen := [Traceback e] |}
      end
  end.

Inductive event :=
  | Rerun
  | Press (b : button)
  | Edit (key text : string)
  | Choose (key choice : string).

Definition has_button (b : button) (pg : list element) : bool :=
  existsb (λ e, match e with Button b' => bool_decide (b' = b) | _ => false end) pg.

Definition has_text_input (key : string) (pg : list element) : bool :=
  existsb (λ e, match e with TextInput k => String.eqb k key | _ => false end) pg.

Definition offers (key choice : string) (pg : list element) : bool :=
  existsb (λ e, match e with
                | Radio options k =>
                    String.eqb k key && existsb (String.eqb choice) options
                | _ => false
                end) pg.

(** An event needs its widget on the page. *)
Definition enabled (ev : event) (w : World) : bool :=
  match ev with
  | Rerun => true
  | Press b => has_button b (screen w)
  | Edit key _ => has_text_input key (screen w)
  | Choose key choice => offers key choice (screen w)
  end.

Definition set_widget (key value : string) (w : World) : World :=
  {| session :=
       (λ s, {| df := df s; step := step s; answers := answers s;
                show_real := show_real s;
                widgets := <[key := value]> (widgets s) |}) <$> session w;
     process := process w;
     screen := screen w |}.

(** The widget's new value is stored, then the [on_click] callback of the
    pressed button runs ([record_answer] for Next), then the script.  A
    callback that raises ends the run before the script starts. *)
Definition deliver (E : Env) (ev : event) (w : World) : World :=
  match ev with
  | Rerun => run E None w
  | Edit key value => run E None (set_widget key value w)
  | Choose key value => run E None (set_widget key value w)
  | Press Next =>
      match session w with
      | Some s =>
          match record_answer s with
          | Ok s' =>
              run E (Some Next)
                  {| session := Some s'; process := process w; screen := screen w |}
          | Raise e =>
              {| session := session w; process := process w;
                 screen := [Traceback e] |}
          end
      | None => run E (Some Next) w
      end
  | Press b => run E (Some b) w
  end.

(** A session starts with no key set and an empty page. *)
Definition fresh (p : Process) : World :=
  {| session := None; process := p; screen := [] |}.

Inductive reachable (E : Env) : World → Prop :=
  | reach_fresh p : reachable E (fresh p)
  | reach_deliver w ev :
      reachable E w → enabled ev w = true → reachable E (deliver E ev w).

Fixpoint play (E : Env) (evs : list event) (w : World) : option World :=
  match evs with
  | [] => Some w
  | ev :: evs' => if enabled ev w then play E evs' (deliver E ev w) else None
  end.

(** ** Shapes of paths, to state what the helpers make of them *)

(** The string holds the character. *)
Fixpoint contains (c : ascii) (s : string) : bool :=
  match s with
  | EmptyString => false
  | String c' s' => Ascii.eqb c' c || contains c s'
  end.

(** The string holds nothing but separators, forward or backward. *)
Fixpoint only_seps (s : string) : bool :=
  match s with
  | EmptyString => true
  | String c s' =>
      (Ascii.eqb c posixpath.sep || Ascii.eqb c posixpath.backslash) && only_seps s'
  end.

(** ** Reasoning about a script

    [wp m r Q]: run from [r], the statement [m] ends, with a value or an
    exception, in a result and a state that satisfy [Q]. *)

Definition wp {A} (m : script A) (r : Run) (Q : result A → Run → Prop) : Prop :=
  Q (m r).1 (m r).2.

(** ** Invariants of the run loop *)

Definition manifest_key : string * Z := ("manipulation_info.csv", ROUNDS).

(** What holds of a session between two runs, whatever page is shown: one
    answer per round played, the round index within the frame, and the frame
    of the session being the one the cache holds. *)
Definition consistent (w : World) : Prop :=
  ∀ s, session w = Some s →
    length (answers s) = step s
    ∧ (step s ≤ length (rows (df s)))%nat
    ∧ cache (process w) !! manifest_key = Some (df s).

Definition consistent_run (r : Run) : Prop :=
  length (answers (ss r)) = step (ss r)
  ∧ (step (ss r) ≤ length (rows (df (ss r))))%nat
  ∧ cache (proc r) !! manifest_key = Some (df (ss r)).

(** What the page of the last run promises: a Next button is only shown
    within a round, with both widgets of that round holding a value. *)
Definition next_ready (w : World) : Prop :=
  enabled (Press Next) w = true →
  ∃ s, session w = Some s
     ∧ (step s < length (rows (df s)))%nat
     ∧ is_Some (widgets s !! guess_key (step s))
     ∧ is_Some (widgets s !! correct_key (step s)).

(** A Play Again button is only shown once the rounds are exhausted; it
    stays on the page of the run that starts the session over. *)
Definition again_ready (w : World) : Prop :=
  enabled (Press PlayAgain) w = true →
  ∃ s, session w = Some s
     ∧ (((length (rows (df s)) ≤ step s)%nat ∧ length (rows (df s)) ≠ 0%nat)
        ∨ (step s = 0%nat ∧ answers s = [] ∧ show_real s = false)).

(** ** A manifest and an asset tree to run the script on *)

Module Demo.

Definition manifest : DataFrame :=
  {| columns := [" Fake_Path"; "real_path "; "Comment"];
     rows := [ [Some "fake/a.jpg"; Some " real/a.jpg"; Some "nose"];
               [Some "fake/b.jpg"; Some "real/b.jpg"; None];
               [Some "fake/c.jpg"; Some "real/c.jpg"; Some "ear"];
               [Some "  "; Some "real/d.jpg"; Some "blank path"];
               [None; Some "real/e.jpg"; Some "missing cell"];
               [Some "fake/f.jpg"; Some "real/f.jpg"; Some "no such file"] ] |}.

Definition tree (p : string) : option node :=
  if String.eqb p "/srv/www/fake/a.jpg" then Some (Picture 900 600)
  else if String.eqb p "/srv/www/real/a.jpg" then Some (Picture 450 300)
  else if String.eqb p "/srv/www/fake/b.jpg" then Some (Picture 800 600)
  else if String.eqb p "/srv/www/real/b.jpg" then Some (Picture 200 100)
  else if String.eqb p "/srv/www/fake/c.jpg" then Some (Picture 451 100)
  else if String.eqb p "/srv/www/real/c.jpg" then Some (Picture 640 480)
  else if String.eqb p "/srv/www/real/d.jpg" then Some (Picture 10 10)
  else if String.eqb p "/srv/www/fake/f.jpg" then Some (Picture 22050 49)
  else if String.eqb p "/srv/www/fake/g.txt" then Some Blob
  else if String.eqb p "/srv/www/fake/square.jpg" then Some (Picture 591 591)
  else if String.eqb p "/srv/www" then Some Directory
  else None.

Definition no_real_path : DataFrame :=
  {| columns := ["fake_path"; "original"];
     rows := [ [Some "fake/a.jpg"; Some "real/a.jpg"] ] |}.

(** A header that gives [fake_path] twice once normalised. *)
Definition duplicated_label : DataFrame :=
  {| columns := ["fake_path"; "Fake_Path "; "real_path"];
     rows := [ [Some "fake/a.jpg"; Some "fake/a.jpg"; Some "real/a.jpg"] ] |}.

Definition E : Env :=
  {| read_csv := λ p, if String.eqb p "manipulation_info.csv" then Ok manifest
                      else if String.eqb p "no_real_path.csv" then Ok no_real_path
                      else if String.eqb p "duplicated.csv" then Ok duplicated_label
                      else Raise (OSError p);
     fs := tree;
     WWW_DIR := "/srv/www" |}.

Definition p0 : Process := {| cache := ∅; entropy := [0; 0; 0; 2; 0; 0]%nat |}.

(** The world a session reaches from [p] through the events [evs]. *)
Definition after (p : Process) (evs : list event) : World :=
  default (fresh p) (play E evs (fresh p)).

(** The session of a world that has one. *)
Definition session_of (w : World) : SessionState :=
  default {| df := {| columns := []; rows := [] |}; step := 0; answers := [];
             show_real := false; widgets := ∅ |}
          (session w).

(** A round revealed, with a guess typed in. *)
Definition revealed : World :=
  after p0 [Rerun; Edit "guess_0" "nose"; Press RevealOriginal].

(** The three rounds played. *)
Definition game : list event :=
  [Rerun; Press RevealOriginal; Press Next;
   Press RevealOriginal; Choose "correct_1" "No"; Press Next;
   Press RevealOriginal; Press Next].

Definition finished : World := after p0 game.

(** What a load would return with the entropy a world has left. *)
Definition reloaded (w : World) : DataFrame :=
  match (load_metadata E "manipulation_info.csv" ROUNDS (entropy (process w))).1 with
  | Ok d => d
  | Raise _ => {| columns := []; rows := [] |}
  end.

(** A session on its first round, still guessing. *)
Definition guessing : World := after p0 [Rerun].



(** The same place with a manifest that lacks [real_path]. *)
Definition broken : Env :=
  {| read_csv := λ _, Ok no_real_path; fs := tree; WWW_DIR := "/srv/www" |}.

Definition cold : Process := {| cache := ∅; entropy := [] |}.

(** The same place once the manifest and every file are gone. *)
Definition gone : Env :=
  {| read_csv := λ p, Raise (OSError p);
     fs := λ _, None;
     WWW_DIR := "/srv/www" |}.

(** A process whose cache holds a frame without rows. *)
Definition barren : Process :=
  {| cache := {[ ("manipulation_info.csv", ROUNDS) :=
                   {| columns := ["fake_path"; "real_path"]; rows := [] |} ]};
     entropy := [] |}.

Definition barren_started : World := after barren [Rerun].

(** A process whose cache holds a row whose fake image is no image. *)
Definition corrupt : Process :=
  {| cache := {[ ("manipulation_info.csv", ROUNDS) :=
                   {| columns := ["fake_path"; "real_path"];
                      rows := [ [Some "fake/g.txt"; Some "real/a.jpg"] ] |} ]};
     entropy := [] |}.

Definition corrupt_started : World := after corrupt [Rerun].

(** A round revealed, nothing typed or chosen yet. *)
Definition just_revealed : World := after p0 [Rerun; Press RevealOriginal].

(** The cache after the first load of the demo manifest. *)
Definition warm : gmap (string * Z) DataFrame :=
  (load_metadata_cached E "manipulation_info.csv" ROUNDS ∅ [0; 0; 0]%nat).1.2.

End Demo.

(** * Properties *)

(** ** Strings and paths *)

Lemma split_not_nil sep s : pystr.split sep s ≠ [].
Proof.
  destruct s as [|c s]; simpl; [done|].
  destruct (Ascii.eqb c sep); [done|].
  by destruct (pystr.split sep s).
Qed.

Lemma lstrip_idemp s : pystr.lstrip (pystr.lstrip s) = pystr.lstrip s.
Proof.
  induction s as [|c s IH]; simpl; [done|].
  destruct (pystr.isspace c) eqn:Hc; [done|]. simpl. by rewrite Hc.
Qed.

Lemma rstrip_idemp s : pystr.rstrip (pystr.rstrip s) = pystr.rstrip s.
Proof.
  induction s as [|c s IH]; simpl; [done|].
  destruct (pystr.rstrip s) as [|c' r] eqn:Hr.
  - destruct (pystr.isspace c) eqn:Hc; simpl; [done|]. by rewrite Hc.
  - simpl in *. by rewrite IH.
Qed.

(** ** The shuffle *)

Lemma permute_Permutation {A} (n : nat) (t : pandas.tape) (l : list A) :
  length l = n → pandas.permute n t l ≡ₚ l.
Proof.
  revert t l. induction n as [|n IH]; intros t l Hn; simpl.
  - by destruct l.
  - destruct l as [|a l]; [done|].
    assert (Hk : (hd 0 t `mod` length (a :: l) < length (a :: l))%nat).
    { apply Nat.mod_upper_bound. simpl. lia. }
    destruct (lookup_lt_is_Some_2 _ _ Hk) as [x Hx].
    rewrite Hx. etrans; [|symmetry; apply (delete_Permutation _ _ _ Hx)].
    constructor. apply IH.
    rewrite length_delete by eauto. simpl in *. lia.
Qed.

Lemma sample_Permutation {A} (t : pandas.tape) (l : list A) :
  (pandas.sample t l).1 ≡ₚ l.
Proof. by apply permute_Permutation. Qed.

Lemma sample_length {A} (t : pandas.tape) (l : list A) :
  length (pandas.sample t l).1 = length l.
Proof. by rewrite sample_Permutation. Qed.

(** Every order of the rows is the outcome of some draw. *)
Lemma permute_complete {A} (l l' : list A) :
  l ≡ₚ l' → ∃ t, pandas.permute (length l) t l = l'.
Proof.
  revert l. induction l' as [|x l' IH]; intros l Hp.
  - apply Permutation_nil_r in Hp as ->. by exists [].
  - assert (Hx : x ∈ l) by (rewrite Hp; left).
    apply list_elem_of_lookup in Hx as [k Hk].
    assert (Hd : delete k l ≡ₚ l').
    { apply (Permutation_cons_inv (a := x)).
      by rewrite <-(delete_Permutation _ _ _ Hk). }
    destruct (IH _ Hd) as [t Ht].
    pose proof (lookup_lt_Some _ _ _ Hk) as Hlt.
    exists (k :: t).
    destruct l as [|a l]; [simpl in Hlt; lia|].
    change (length (a :: l)) with (S (length l)) at 1.
    cbn [pandas.permute hd tl].
    rewrite Nat.mod_small by done. rewrite Hk. f_equal.
    rewrite <-Ht. f_equal.
    rewrite length_delete by eauto. simpl. lia.
Qed.

Lemma head_length (n : Z) rs :
  (0 ≤ n)%Z → length (pandas.head n rs) = Nat.min (Z.to_nat n) (length rs).
Proof.
  intros Hn. unfold pandas.head.
  destruct (Z.leb_spec 0 n); [|lia]. by rewrite length_take.
Qed.



(** ** The manifest loader *)

Lemma missing_cols_cases cols :
  missing_cols cols =
    ((if decide ("fake_path" ∈ cols) then [] else ["fake_path"])
     ++ (if decide ("real_path" ∈ cols) then [] else ["real_path"]))%list.
Proof.
  unfold missing_cols, required.
  rewrite !filter_cons, filter_nil.
  repeat case_decide; done.
Qed.

Lemma missing_cols_nil cols :
  missing_cols cols = [] ↔ "fake_path" ∈ cols ∧ "real_path" ∈ cols.
Proof.
  rewrite missing_cols_cases. repeat case_decide; simpl; split; try done; tauto.
Qed.

Lemma elem_of_missing_cols cols c :
  c ∈ missing_cols cols ↔ c ∈ required ∧ c ∉ cols.
Proof. unfold missing_cols. rewrite list_elem_of_filter. tauto. Qed.


(** With its early returns folded away, a load that passes the column
    check shuffles the surviving rows and keeps the head. *)
Lemma load_metadata_ok E csv_path rounds t d :
  read_csv E csv_path = Ok d →
  missing_cols (normalised_columns d) = [] →
  pandas.duplicated (normalised_columns d) "fake_path" = false →
  pandas.duplicated (normalised_columns d) "real_path" = false →
  load_metadata E csv_path rounds t =
    (Ok {| columns := normalised_columns d;
           rows := pandas.head (Z.min rounds (Z.of_nat (length (surviving_rows E d))))
                     (pandas.sample t (surviving_rows E d)).1 |},
     drop (length (surviving_rows E d)) t).
Proof.
  intros Hread Hmiss Hdf Hdr. unfold load_metadata, surviving_rows.
  rewrite Hread. cbv zeta. rewrite Hmiss, Hdf, Hdr. cbn [orb].
  rewrite bool_decide_eq_false_2 by (intros H; by apply H).
  set (cols := normalised_columns d).
  set (rs := List.filter (paths_not_empty cols) _).
  destruct rs as [|r rs'] eqn:Hrs.
  - simpl. unfold pandas.head. simpl. change (drop 0 t) with t.
    by destruct (0 <=? _)%Z; rewrite ?take_nil.
  - cbn [length Nat.eqb].
    set (surv := List.filter (exists_row E cols) (r :: rs')).
    destruct surv as [|r0 surv'] eqn:Hsurv.
    + simpl. unfold pandas.head. simpl. change (drop 0 t) with t.
      by destruct (0 <=? _)%Z; rewrite ?take_nil.
    + cbn [length Nat.eqb]. unfold pandas.sample. cbn [fst].
      rewrite permute_Permutation at 1 by done. done.
Qed.



(** C3: a manifest that lacks [fake_path] or [real_path], compared after
    trimming and lowercasing its labels, makes the loader raise the error of
    line 39 with the sorted list of the missing labels in its message; a
    manifest that has both never raises it. *)
Theorem load_metadata_schema_error E csv_path rounds t d :
  read_csv E csv_path = Ok d →
  let cols := normalised_columns d in
  let res := (load_metadata E csv_path rounds t).1 in
  ("fake_path" ∉ cols → "real_path" ∈ cols →
     res = Raise (ValueError "CSV missing required columns: ['fake_path']"))
  ∧ ("fake_path" ∈ cols → "real_path" ∉ cols →
     res = Raise (ValueError "CSV missing required columns: ['real_path']"))
  ∧ ("fake_path" ∉ cols → "real_path" ∉ cols →
     res = Raise (ValueError
                    "CSV missing required columns: ['fake_path', 'real_path']"))
  ∧ ("fake_path" ∈ cols → "real_path" ∈ cols →
     ∀ missing, res ≠ Raise (SchemaError missing)).
Proof.
  intros Hread cols res.
  assert (Hbad : missing_cols cols ≠ [] →
                 res = Raise (SchemaError (missing_cols cols))).
  { intros Hne. unfold res, load_metadata. rewrite Hread. cbv zeta.
    fold cols. by rewrite bool_decide_eq_true_2. }
  repeat split.
  - intros Hf Hr. rewrite Hbad; rewrite missing_cols_cases;
      rewrite decide_False, decide_True by done; done.
  - intros Hf Hr. rewrite Hbad; rewrite missing_cols_cases;
      rewrite decide_True, decide_False by done; done.
  - intros Hf Hr. rewrite Hbad; rewrite missing_cols_cases;
      rewrite !decide_False by done; done.
  - intros Hf Hr missing. unfold res.
    destruct (pandas.duplicated cols "fake_path") eqn:Hdf;
      [|destruct (pandas.duplicated cols "real_path") eqn:Hdr].
    3: { rewrite (load_metadata_ok E csv_path rounds t d Hread)
           by (done || by apply missing_cols_nil). done. }
    all: unfold load_metadata; rewrite Hread; cbv zeta; fold cols;
      rewrite bool_decide_eq_false_2
        by (intros H; apply H; by apply missing_cols_nil);
      rewrite Hdf, ?Hdr; cbn; discriminate.
Qed.

Lemma load_metadata_schema_error_witness :
  (load_metadata Demo.E "no_real_path.csv" 10 [1; 2; 3]%nat).1
  = Raise (ValueError "CSV missing required columns: ['real_path']").
Proof.
  destruct (load_metadata_schema_error Demo.E "no_real_path.csv" 10 [1; 2; 3]%nat
              Demo.no_real_path eq_refl) as (_ & H & _).
  apply H; apply (bool_decide_unpack _); vm_compute; exact I.
Defined.

(** C4, as amended: when both required labels are present, each of them
    once, the loader returns a frame and raises nothing; for a round count
    that is not negative its length is min(rounds, number of surviving
    rows), and it is the empty frame when no row survives. *)
Theorem load_metadata_length E csv_path rounds t d :
  read_csv E csv_path = Ok d →
  "fake_path" ∈ normalised_columns d →
  "real_path" ∈ normalised_columns d →
  pandas.duplicated (normalised_columns d) "fake_path" = false →
  pandas.duplicated (normalised_columns d) "real_path" = false →
  (0 ≤ rounds)%Z →
  ∃ out, (load_metadata E csv_path rounds t).1 = Ok out
       ∧ Z.of_nat (length (rows out))
         = Z.min rounds (Z.of_nat (length (surviving_rows E d)))
       ∧ (surviving_rows E d = [] → rows out = []).
Proof.
  intros Hread Hf Hr Hdf Hdr Hrounds.
  rewrite (load_metadata_ok E csv_path rounds t d Hread)
    by (done || by apply missing_cols_nil).
  eexists. split; [done|]. cbn [fst rows]. split.
  - rewrite head_length by lia. rewrite sample_length. lia.
  - intros ->. unfold pandas.head. simpl.
    by destruct (0 <=? _)%Z; rewrite ?take_nil.
Qed.

Lemma load_metadata_length_witness :
  ∃ out, (load_metadata Demo.E "manipulation_info.csv" 2 [2; 0; 0]%nat).1 = Ok out
       ∧ Z.of_nat (length (rows out))
         = Z.min 2 (Z.of_nat (length (surviving_rows Demo.E Demo.manifest)))
       ∧ (surviving_rows Demo.E Demo.manifest = [] → rows out = []).
Proof.
  apply (load_metadata_length Demo.E "manipulation_info.csv" 2 [2; 0; 0]%nat
           Demo.manifest eq_refl).
  - apply (bool_decide_unpack _). vm_compute. exact I.
  - apply (bool_decide_unpack _). vm_compute. exact I.
  - vm_compute. reflexivity.
  - vm_compute. reflexivity.
  - lia.
Defined.

(** C4 as first stated fails: a manifest whose header gives [fake_path]
    twice, once capitalised and padded, has both required labels once they
    are normalised, and its one row names two files that exist; yet the
    loader raises instead of returning a frame. *)
Lemma load_metadata_duplicated_label :
  read_csv Demo.E "duplicated.csv" = Ok Demo.duplicated_label
  ∧ "fake_path" ∈ normalised_columns Demo.duplicated_label
  ∧ "real_path" ∈ normalised_columns Demo.duplicated_label
  ∧ ¬ ∃ out, (load_metadata Demo.E "duplicated.csv" 10 [0; 0; 0]%nat).1 = Ok out.
Proof.
  split; [reflexivity|].
  split; [apply (bool_decide_unpack _); vm_compute; exact I|].
  split; [apply (bool_decide_unpack _); vm_compute; exact I|].
  intros [out Hout]. vm_compute in Hout. discriminate.
Qed.





(** ** [load_image] *)


(** Whatever it returns, [load_image] writes nothing on the page but
    warnings. *)
Lemma load_image_page E rel_path max_width ws res :
  load_image E rel_path max_width = (ws, res) →
  (∀ b, has_button b ws = false) ∧ widget_keys ws = [].
Proof.
  unfold load_image. destruct rel_path as [rel|]; [|by intros [= <- _]].
  destruct (String.eqb (pystr.strip rel) ""); [by intros [= <- _]|].
  destruct (negb _); by intros [= <- _].
Qed.

(** An image that [load_image] returns was opened from the resolved path;
    if its native width is at most [max_width] it is that image as opened,
    and if it is wider it is that image resized with the LANCZOS filter to
    the width [max_width] and to the height
    [int(height * (max_width / float(width)))], computed in binary64. *)
Lemma load_image_scales E rel_path max_width ws img' :
  load_image E rel_path max_width = (ws, Ok (Some img')) →
  ∃ rel w h,
    rel_path = Some rel
    ∧ fs E (_abs_from_rel E rel) = Some (Picture w h)
    ∧ ((w ≤ max_width)%Z → img' = PIL.Opened (_abs_from_rel E rel) w h)
    ∧ ((max_width < w)%Z →
       ∃ fw fmw ratio fh h',
         pyfloat.of_int w = Ok fw
         ∧ pyfloat.of_int max_width = Ok fmw
         ∧ pyfloat.truediv fmw fw = Ok ratio
         ∧ pyfloat.of_int h = Ok fh
         ∧ pyfloat.to_int (pyfloat.mul fh ratio) = Ok h'
         ∧ img' = PIL.Resized (PIL.Opened (_abs_from_rel E rel) w h)
                    max_width h' PIL.LANCZOS
         ∧ PIL.width img' = max_width
         ∧ PIL.height img' = h').
Proof.
  unfold load_image. destruct rel_path as [rel|]; [|done].
  destruct (String.eqb (pystr.strip rel) ""); [done|].
  unfold os_path_exists, PIL.open.
  destruct (fs E (_abs_from_rel E rel)) as [[| |w h]|] eqn:Hfs; simpl; try done.
  intros [= _ Himg]. exists rel, w, h. split; [done|]. split; [done|].
  destruct (Z.ltb_spec max_width w) as [Hlt|Hge].
  - split; [lia|]. intros _.
    destruct (pyfloat.of_int w) as [fw|] eqn:Hw; simpl in Himg; [|done].
    destruct (pyfloat.of_int max_width) as [fmw|] eqn:Hmw; simpl in Himg; [|done].
    destruct (pyfloat.truediv fmw fw) as [ratio|] eqn:Hratio; simpl in Himg; [|done].
    destruct (pyfloat.of_int h) as [fh|] eqn:Hh; simpl in Himg; [|done].
    destruct (pyfloat.to_int (pyfloat.mul fh ratio)) as [h'|] eqn:Hh';
      simpl in Himg; [|done].
    unfold PIL.resize in Himg. destruct (_ || _); simpl in Himg; [done|].
    injection Himg as <-. exists fw, fmw, ratio, fh, h'. by repeat split.
  - simpl in Himg. injection Himg as <-. split; [done | lia].
Qed.

Lemma load_image_scales_witness :
  ∃ img', load_image Demo.E (Some "fake/a.jpg") 450 = ([], Ok (Some img'))
        ∧ PIL.width img' = 450%Z ∧ PIL.height img' = 300%Z.
Proof.
  exists (PIL.Resized (PIL.Opened "/srv/www/fake/a.jpg" 900 600) 450 300 PIL.LANCZOS).
  assert (H : load_image Demo.E (Some "fake/a.jpg") 450
              = ([], Ok (Some (PIL.Resized
                                 (PIL.Opened "/srv/www/fake/a.jpg" 900 600)
                                 450 300 PIL.LANCZOS))))
    by (vm_compute; reflexivity).
  split; [exact H|].
  destruct (load_image_scales _ _ _ _ _ H)
    as (rel & w & h & Hrel & Hfs & _ & Hwide).
  injection Hrel as <-. vm_compute in Hfs. injection Hfs as <- <-.
  destruct Hwide as (fw & fmw & ratio & fh & h' & _ & _ & _ & _ & _ & Himg & Hw & _);
    [lia|].
  split; [exact Hw|]. reflexivity.
Defined.

(** C8, on a square image of 591 by 591 pixels and the width of 450 the
    script asks for: [load_image] resizes it with the LANCZOS filter to 450
    by 449.  The height that keeps the proportions, 591 * 450 / 591, is 450
    exactly; in binary64 the product of 591 and the ratio 450 / 591 falls
    just below 450, and [int] cuts it down to 449: the image returned is no
    longer square. *)
Theorem load_image_square_not_square :
  load_image Demo.E (Some "fake/square.jpg") 450
  = ([], Ok (Some (PIL.Resized (PIL.Opened "/srv/www/fake/square.jpg" 591 591)
                     450 449 PIL.LANCZOS)))
  ∧ ((591 * 450) `div` 591 = 450)%Z
  ∧ ∀ ws img, load_image Demo.E (Some "fake/square.jpg") 450 = (ws, Ok (Some img)) →
              PIL.width img ≠ PIL.height img.
Proof.
  assert (H : load_image Demo.E (Some "fake/square.jpg") 450
              = ([], Ok (Some (PIL.Resized
                                 (PIL.Opened "/srv/www/fake/square.jpg" 591 591)
                                 450 449 PIL.LANCZOS))))
    by (vm_compute; reflexivity).
  split; [exact H|]. split; [reflexivity|].
  intros ws img Himg. rewrite H in Himg. injection Himg as _ <-. discriminate.
Qed.

(** ** The cache *)

Lemma load_metadata_raise E csv_path rounds t e t' :
  load_metadata E csv_path rounds t = (Raise e, t') → t' = t.
Proof.
  unfold load_metadata. destruct (read_csv E csv_path); [|by intros [= _ <-]].
  cbv zeta. destruct (bool_decide _); [by intros [= _ <-]|].
  destruct (_ || _); [by intros [= _ <-]|].
  destruct (_ =? _)%nat; [done|]. destruct (_ =? _)%nat; [done|].
  by destruct (pandas.sample _ _).
Qed.

Lemma load_metadata_cached_hit E csv_path rounds c t d :
  c !! (csv_path, rounds) = Some d →
  load_metadata_cached E csv_path rounds c t = (Ok d, c, t).
Proof. intros H. unfold load_metadata_cached. by rewrite H. Qed.

Lemma load_metadata_cached_ok E csv_path rounds c t d c' t' :
  load_metadata_cached E csv_path rounds c t = (Ok d, c', t') →
  c' !! (csv_path, rounds) = Some d.
Proof.
  unfold load_metadata_cached.
  destruct (c !! (csv_path, rounds)) as [d0|] eqn:Hc.
  - by intros [= <- <- _].
  - destruct (load_metadata E csv_path rounds t) as [[d1|e] t1]; [|done].
    intros [= <- <- _]. apply lookup_insert_eq.
Qed.

Lemma load_metadata_cached_raise E csv_path rounds c t e c' t' :
  load_metadata_cached E csv_path rounds c t = (Raise e, c', t') →
  c' = c ∧ t' = t.
Proof.
  unfold load_metadata_cached.
  destruct (c !! (csv_path, rounds)) as [d0|]; [done|].
  destruct (load_metadata E csv_path rounds t) as [[d1|e1] t1] eqn:Hl; [done|].
  intros [= _ <- <-]. split; [done|]. by eapply load_metadata_raise.
Qed.

(** ** The script logic *)

Lemma wp_bind {A B} (m : script A) (k : A → script B) r Q :
  wp m r (λ res r', match res with
                    | Ok a => wp (k a) r' Q
                    | Raise e => Q (Raise e) r'
                    end) →
  wp (m ≫= k) r Q.
Proof.
  unfold wp, mbind, script_bind. by destruct (m r) as [[a|e] r'].
Qed.

Lemma wp_ret {A} (a : A) r (Q : result A → Run → Prop) :
  Q (Ok a) r → wp (mret a) r Q.
Proof. done. Qed.

Lemma wp_skip r (Q : result () → Run → Prop) : Q (Ok ()) r → wp skip r Q.
Proof. done. Qed.

Lemma wp_raise {A} e r (Q : result A → Run → Prop) :
  Q (Raise e) r → wp (raise e) r Q.
Proof. done. Qed.

Lemma wp_get_session r (Q : result SessionState → Run → Prop) :
  Q (Ok (ss r)) r → wp get_session r Q.
Proof. done. Qed.

Lemma wp_put_session s r (Q : result () → Run → Prop) :
  Q (Ok ()) {| ss := s; proc := proc r; out := out r |} → wp (put_session s) r Q.
Proof. done. Qed.

Lemma wp_emit es r (Q : result () → Run → Prop) :
  Q (Ok ()) {| ss := ss r; proc := proc r; out := out r ++ es |} → wp (emit es) r Q.
Proof. done. Qed.

(** A registered widget holds a value afterwards: the one it held, or its
    default; the other widgets are left as they were. *)
Lemma wp_register key dflt r (Q : result string → Run → Prop) :
  (∀ v w',
     w' !! key = Some v →
     (widgets (ss r) !! key = None → v = dflt) →
     (∀ k, k ≠ key → w' !! k = widgets (ss r) !! k) →
     Q (Ok v)
       {| ss := {| df := df (ss r); step := step (ss r); answers := answers (ss r);
                   show_real := show_real (ss r); widgets := w' |};
          proc := proc r; out := out r |}) →
  wp (register key dflt) r Q.
Proof.
  intros H. unfold wp, register.
  destruct (widgets (ss r) !! key) as [v|] eqn:Hk; cbn [fst snd].
  - destruct r as [[] ? ?]. by apply (H v).
  - apply H; [apply lookup_insert_eq | done |].
    intros k Hne. by apply lookup_insert_ne.
Qed.

(** What a display statement writes holds no button and no widget. *)
Lemma wp_show_image img caption r (Q : result () → Run → Prop) :
  (∀ es, (∀ b, has_button b es = false) → widget_keys es = [] →
         Q (Ok ()) {| ss := ss r; proc := proc r; out := out r ++ es |}) →
  wp (show_image img caption) r Q.
Proof.
  intros H. unfold wp, show_image. destruct img as [i|]; cbn [fst snd].
  - by apply (H [Picture_ i caption]).
  - specialize (H [] (λ _, eq_refl) eq_refl). by rewrite app_nil_r in H; destruct r.
Qed.

Lemma wp_show_comment comment r (Q : result () → Run → Prop) :
  (∀ es, (∀ b, has_button b es = false) → widget_keys es = [] →
         Q (Ok ()) {| ss := ss r; proc := proc r; out := out r ++ es |}) →
  wp (show_comment comment) r Q.
Proof.
  intros H. unfold wp, show_comment. destruct (truthy comment); cbn [fst snd].
  - by apply (H [Comment comment]).
  - specialize (H [] (λ _, eq_refl) eq_refl). by rewrite app_nil_r in H; destruct r.
Qed.

Lemma wp_call_load_image E c r (Q : result (option PIL.Image) → Run → Prop) :
  (∀ ws res, load_image E c 450 = (ws, res) →
             (∀ b, has_button b ws = false) → widget_keys ws = [] →
             Q res {| ss := ss r; proc := proc r; out := out r ++ ws |}) →
  wp (call_load_image E c) r Q.
Proof.
  intros H. unfold wp, call_load_image.
  destruct (load_image E c 450) as [ws res] eqn:Hl.
  destruct (load_image_page _ _ _ _ _ Hl). by apply H.
Qed.

Lemma wp_call_load_metadata E csv_path rounds r (Q : result DataFrame → Run → Prop) :
  (∀ res c t,
     load_metadata_cached E csv_path rounds (cache (proc r)) (entropy (proc r))
     = (res, c, t) →
     Q res {| ss := ss r; proc := {| cache := c; entropy := t |}; out := out r |}) →
  wp (call_load_metadata E csv_path rounds) r Q.
Proof.
  intros H. unfold wp, call_load_metadata.
  destruct (load_metadata_cached _ _ _ _ _) as [[res c] t] eqn:Hl. by apply H.
Qed.

(** One statement of the script at a time. *)
Ltac wp_step :=
  lazymatch goal with
  | |- wp (_ ≫= _) _ _ => apply wp_bind
  | |- wp (mret _) _ _ => apply wp_ret
  | |- wp skip _ _ => apply wp_skip
  | |- wp (raise _) _ _ => apply wp_raise
  | |- wp st_stop _ _ => apply wp_raise
  | |- wp get_session _ _ => apply wp_get_session
  | |- wp (put_session _) _ _ => apply wp_put_session
  | |- wp (set_show_real _) _ _ => unfold set_show_real
  | |- wp (emit _) _ _ => apply wp_emit
  | |- wp (register _ _) _ _ =>
      let H1 := fresh "Hheld" in
      let H2 := fresh "Hdflt" in
      let H3 := fresh "Hrest" in
      apply wp_register; intros ? ? H1 H2 H3;
      cbn [ss proc out df step answers show_real widgets] in H2, H3
  | |- wp (st_text_input _) _ _ => unfold st_text_input
  | |- wp (st_radio _ _ _) _ _ => unfold st_radio
  | |- wp (st_button _ _) _ _ => unfold st_button
  | |- wp (show_image _ _) _ _ => apply wp_show_image; intros ? ? ?
  | |- wp (show_comment _) _ _ => apply wp_show_comment; intros ? ? ?
  | |- wp (iloc ?d ?i) _ _ => unfold iloc; destruct (rows d !! i) eqn:?
  | |- wp (call_load_image _ _) _ _ =>
      apply wp_call_load_image; intros ? [?|?] ? ? ?
  | |- wp (call_load_metadata _ _ _) _ _ =>
      let H := fresh "Hload" in
      apply wp_call_load_metadata; intros [?|?] ? ? H;
      cbn [ss proc out df step answers show_real widgets] in H
  | |- wp (if ?b then _ else _) _ _ => destruct b eqn:?
  end; cbn [ss proc out df step answers show_real widgets].

(** The tests of the script, as propositions. *)
Ltac wp_facts :=
  repeat match goal with
    | H : bool_decide _ = true |- _ => apply bool_decide_eq_true_1 in H
    | H : bool_decide _ = false |- _ => apply bool_decide_eq_false_1 in H
    | H : negb _ = true |- _ => apply negb_true_iff in H
    | H : negb _ = false |- _ => apply negb_false_iff in H
    | H : (_ =? _)%nat = true |- _ => apply Nat.eqb_eq in H
    | H : (_ =? _)%nat = false |- _ => apply Nat.eqb_neq in H
    | H : (_ <? _)%nat = true |- _ => apply Nat.ltb_lt in H
    | H : (_ <? _)%nat = false |- _ => apply Nat.ltb_ge in H
    end.

(** ** The page *)

Lemma has_button_app b l l' :
  has_button b (l ++ l') = has_button b l || has_button b l'.
Proof. apply existsb_app. Qed.

Lemma widget_keys_app l l' :
  widget_keys (l ++ l') = (widget_keys l ++ widget_keys l')%list.
Proof. apply omap_app. Qed.

Lemma guess_key_ne_correct_key n m : guess_key n ≠ correct_key m.
Proof. done. Qed.

(** Without a press of Play Again the page leaves the frame, the round
    index, the answers and the process alone; without a press of Reveal it
    leaves [show_real] alone too. *)
Lemma page_frame E pressed r :
  pressed ≠ Some PlayAgain →
  wp (page E pressed) r (λ _ r',
    df (ss r') = df (ss r) ∧ step (ss r') = step (ss r)
    ∧ answers (ss r') = answers (ss r) ∧ proc r' = proc r
    ∧ (pressed ≠ Some RevealOriginal → show_real (ss r') = show_real (ss r))).
Proof.
  intros Hp. unfold page. repeat wp_step.
  all: wp_facts; done.
Qed.

(** With a press of Play Again, either nothing of that changes, or the
    summary was shown and the session starts over on what the cached loader
    returns. *)
Lemma page_play_again E r :
  wp (page E (Some PlayAgain)) r (λ _ r',
    (df (ss r') = df (ss r) ∧ step (ss r') = step (ss r)
     ∧ answers (ss r') = answers (ss r) ∧ show_real (ss r') = show_real (ss r)
     ∧ cache (proc r') = cache (proc r) ∧ entropy (proc r') = entropy (proc r))
    ∨ ((length (rows (df (ss r))) ≤ step (ss r))%nat
       ∧ ∃ d c t,
           load_metadata_cached E "manipulation_info.csv" ROUNDS
             (cache (proc r)) (entropy (proc r)) = (Ok d, c, t)
           ∧ df (ss r') = d ∧ step (ss r') = 0%nat ∧ answers (ss r') = []
           ∧ show_real (ss r') = false ∧ widgets (ss r') = widgets (ss r)
           ∧ proc r' = {| cache := c; entropy := t |})).
Proof.
  unfold page. repeat wp_step.
  all: wp_facts; try (left; done).
  - right. split; [done|]. eexists _, _, _. done.
  - left. match goal with H : load_metadata_cached _ _ _ _ _ = _ |- _ =>
            apply load_metadata_cached_raise in H as [-> ->] end. done.
Qed.

(** What [load_image] and the display statements wrote holds no button and
    no widget. *)
Ltac page_facts :=
  repeat match goal with
    | H : ∀ b, has_button b ?ws = false |- _ =>
        rewrite ?(H Next), ?(H PlayAgain), ?(H RevealOriginal); clear H
    | H : widget_keys ?ws = [] |- _ => rewrite ?H; clear H
    end.

Ltac widget_keys_singletons :=
  repeat match goal with
    | |- context [widget_keys [?e]] =>
        let x := eval cbv in (widget_keys [e]) in
        change (widget_keys [e]) with x
    end.


Lemma page_buttons E pressed r :
  has_button Next (out r) = false →
  has_button PlayAgain (out r) = false →
  wp (page E pressed) r (λ _ r',
    (has_button Next (out r') = true →
       (step (ss r) < length (rows (df (ss r))))%nat
       ∧ guess_key (step (ss r)) ∈ widget_keys (out r')
       ∧ correct_key (step (ss r)) ∈ widget_keys (out r')
       ∧ is_Some (widgets (ss r') !! guess_key (step (ss r)))
       ∧ ∃ c, widgets (ss r') !! correct_key (step (ss r)) = Some c
            ∧ (widgets (ss r) !! correct_key (step (ss r)) = None → c = "Yes"))
    ∧ (has_button PlayAgain (out r') = true →
       (length (rows (df (ss r))) ≤ step (ss r))%nat
       ∧ length (rows (df (ss r))) ≠ 0%nat)).
Proof.
  intros HN HP. unfold page. repeat wp_step.
  all: wp_facts; rewrite ?has_button_app, ?widget_keys_app; page_facts;
    rewrite ?HN, ?HP.
  all: cbn -[guess_key correct_key lookup insert elem_of widget_keys].
  all: split; [|try (intros; done)].
  all: try (intros; done).
  all: intros _; split; [done|].
  all: widget_keys_singletons.
  all: rewrite ?app_nil_r, !elem_of_app, !list_elem_of_singleton.
  all: split; [tauto|]; split; [tauto|].
  all: split;
    [ rewrite Hrest0 by apply guess_key_ne_correct_key; by rewrite Hheld
    | exists v0; split; [done|]; intros Hnone; apply Hdflt0;
      by rewrite Hrest by (intros Heq; by apply (guess_key_ne_correct_key _ _ (eq_sym Heq))) ].
Qed.



(** On the summary, a press of Play Again starts the session over on
    whatever the cached loader returns. *)
Lemma page_summary_reset E r :
  length (rows (df (ss r))) ≠ 0%nat →
  (length (rows (df (ss r))) ≤ step (ss r))%nat →
  wp (page E (Some PlayAgain)) r (λ _ r',
    ∀ d c t,
      load_metadata_cached E "manipulation_info.csv" ROUNDS
        (cache (proc r)) (entropy (proc r)) = (Ok d, c, t) →
      ss r' = {| df := d; step := 0; answers := []; show_real := false;
                 widgets := widgets (ss r) |}
      ∧ proc r' = {| cache := c; entropy := t |}).
Proof.
  intros Hne Hle. unfold page. repeat wp_step.
  all: wp_facts; try lia; try done.
  all: intros d' c' t' Hl; rewrite Hl in Hload; by simplify_eq.
Qed.

(** ** From one run to the next *)

Lemma page_consistent E pressed r :
  consistent_run r → consistent_run (page E pressed r).2.
Proof.
  intros (Hlen & Hle & Hcache). unfold consistent_run.
  destruct (decide (pressed = Some PlayAgain)) as [->|Hp].
  - destruct (page_play_again E r)
      as [(-> & -> & -> & _ & -> & _) | (_ & d & c & t & Hl & -> & -> & -> & _ & _ & ->)].
    + done.
    + simpl. split; [done|]. split; [lia|].
      by apply load_metadata_cached_ok in Hl.
  - by destruct (page_frame E pressed r Hp) as (-> & -> & -> & -> & _).
Qed.

(** What the buttons of the page written by a run say of the session the run
    leaves. *)
Lemma page_promises E pressed r :
  has_button Next (out r) = false →
  has_button PlayAgain (out r) = false →
  let r' := (page E pressed r).2 in
  (has_button Next (out r') = true →
     (step (ss r') < length (rows (df (ss r'))))%nat
     ∧ guess_key (step (ss r')) ∈ widget_keys (out r')
     ∧ correct_key (step (ss r')) ∈ widget_keys (out r')
     ∧ is_Some (widgets (ss r') !! guess_key (step (ss r')))
     ∧ is_Some (widgets (ss r') !! correct_key (step (ss r'))))
  ∧ (has_button PlayAgain (out r') = true →
     ((length (rows (df (ss r'))) ≤ step (ss r'))%nat
      ∧ length (rows (df (ss r'))) ≠ 0%nat)
     ∨ (step (ss r') = 0%nat ∧ answers (ss r') = [] ∧ show_real (ss r') = false)).
Proof.
  intros HN HP r'. destruct (page_buttons E pressed r HN HP) as [Hnext Hagain].
  fold r' in Hnext, Hagain.
  assert (Hcore : (df (ss r') = df (ss r) ∧ step (ss r') = step (ss r))
                  ∨ ((length (rows (df (ss r))) ≤ step (ss r))%nat
                     ∧ step (ss r') = 0%nat ∧ answers (ss r') = []
                     ∧ show_real (ss r') = false)).
  { destruct (decide (pressed = Some PlayAgain)) as [->|Hp].
    - destruct (page_play_again E r)
        as [(? & ? & _) | (? & d & c & t & _ & _ & ? & ? & ? & _)]; [by left|by right].
    - destruct (page_frame E pressed r Hp) as (? & ? & _). by left. }
  split.
  - intros Hb. destruct (Hnext Hb) as (Hlt & Hg & Hc & Hgv & c & Hcv & _).
    destruct Hcore as [[Hdf Hstep] | [Hle _]]; [|lia].
    rewrite Hdf, Hstep. by rewrite Hcv.
  - intros Hb. destruct (Hagain Hb) as [Hle Hne].
    destruct Hcore as [[Hdf Hstep] | (_ & ? & ? & ?)]; [left|by right].
    by rewrite Hdf, Hstep.
Qed.

Lemma finish_spec res r :
  ∃ o, finish (res, r) =
         {| session :=
              Some {| df := df (ss r); step := step (ss r); answers := answers (ss r);
                      show_real := show_real (ss r);
                      widgets := filter (λ kv, kv.1 ∈ widget_keys o) (widgets (ss r)) |};
            process := proc r;
            screen := o |}
     ∧ (∀ b, has_button b o = has_button b (out r))
     ∧ widget_keys o = widget_keys (out r).
Proof.
  assert (Htb : ∀ e, (∀ b, has_button b (out r ++ [Traceback e])%list = has_button b (out r))
                     ∧ widget_keys (out r ++ [Traceback e])%list = widget_keys (out r)).
  { intros e. split.
    - intros b. rewrite has_button_app. simpl. by rewrite orb_false_r.
    - rewrite widget_keys_app. simpl. by rewrite app_nil_r. }
  destruct res as [[]|e]; [by exists (out r)|].
  destruct e; try (by exists (out r));
    match goal with
    | |- context [finish (Raise ?e, _)] =>
        exists (out r ++ [Traceback e])%list; split; [done|]; apply Htb
    end.
Qed.

(** A run either fails to load the manifest of a session not yet started,
    or writes the page from the session it finds or starts. *)
Lemma run_cases E pressed w :
  (session w = None
   ∧ ∃ e, load_metadata_cached E "manipulation_info.csv" ROUNDS
            (cache (process w)) (entropy (process w))
          = (Raise e, cache (process w), entropy (process w))
        ∧ run E pressed w = {| session := None; process := process w;
                               screen := [Traceback e] |})
  ∨ ∃ s p,
      run E pressed w = finish (page E pressed {| ss := s; proc := p; out := [] |})
      ∧ ((session w = Some s ∧ p = process w)
         ∨ (session w = None
            ∧ load_metadata_cached E "manipulation_info.csv" ROUNDS
                (cache (process w)) (entropy (process w))
              = (Ok (df s), cache p, entropy p)
            ∧ step s = 0%nat ∧ answers s = [] ∧ show_real s = false
            ∧ widgets s = ∅)).
Proof.
  unfold run. destruct (session w) as [s|] eqn:Hs.
  - right. exists s, (process w). auto.
  - destruct (load_metadata_cached _ _ _ _ _) as [[[d|e] c] t] eqn:Hl.
    + right. eexists _, _. split; [done|]. right. by simpl.
    + left. split; [done|]. exists e.
      destruct (load_metadata_cached_raise _ _ _ _ _ _ _ _ Hl) as [-> ->].
      split; [done|]. by destruct (process w).
Qed.

Lemma run_invariant E pressed w :
  consistent w →
  consistent (run E pressed w)
  ∧ next_ready (run E pressed w)
  ∧ again_ready (run E pressed w).
Proof.
  intros Hw.
  destruct (run_cases E pressed w) as [(Hnone & e & _ & ->) | (s & p & -> & Hstart)].
  { split; [|split]; [by intros s0 [=] | by intros [=] | by intros [=]]. }
  set (r := {| ss := s; proc := p; out := [] |}).
  assert (Hr : consistent_run r).
  { destruct Hstart as [[Hs ->] | (_ & Hl & Hstep & Hans & _)].
    - by apply Hw.
    - unfold consistent_run. simpl. rewrite Hstep, Hans. split; [done|].
      split; [lia|]. by apply load_metadata_cached_ok in Hl. }
  pose proof (page_consistent E pressed r Hr) as (Hlen & Hle & Hcache).
  destruct (page_promises E pressed r eq_refl eq_refl) as [Hnext Hagain].
  destruct (page E pressed r) as [res r'] eqn:Hpage. cbn [snd] in *.
  destruct (finish_spec res r') as (o & -> & Hbuttons & Hkeys).
  split; [|split].
  - intros s' [= <-]. by cbn.
  - unfold next_ready, enabled. cbn [screen session]. rewrite Hbuttons. intros Hb.
    destruct (Hnext Hb) as (Hlt & Hg & Hc & [g Hgv] & [c Hcv]).
    eexists. split; [done|]. cbn. split; [done|].
    split; eexists; apply map_lookup_filter_Some; (split; [done|]);
      cbn; by rewrite Hkeys.
  - unfold again_ready, enabled. cbn [screen session]. rewrite Hbuttons. intros Hb.
    eexists. split; [done|]. cbn. by apply Hagain.
Qed.

Lemma run_frame E pressed w s :
  pressed ≠ Some PlayAgain →
  session w = Some s →
  ∃ s', session (run E pressed w) = Some s'
      ∧ df s' = df s ∧ step s' = step s ∧ answers s' = answers s
      ∧ process (run E pressed w) = process w
      ∧ (pressed ≠ Some RevealOriginal → show_real s' = show_real s).
Proof.
  intros Hp Hs. unfold run. rewrite Hs.
  set (r := {| ss := s; proc := process w; out := [] |}).
  pose proof (page_frame E pressed r Hp) as Hframe. unfold wp in Hframe.
  destruct (page E pressed r) as [res r']. cbn [snd] in Hframe.
  destruct (finish_spec res r') as (o & -> & _). eexists. split; [done|].
  cbn. by destruct Hframe as (-> & -> & -> & -> & ?).
Qed.

(** Whatever was pressed, a run keeps the round index and the answers, or
    starts them over. *)
Lemma page_step_answers E pressed r :
  (step (ss (page E pressed r).2) = step (ss r)
   ∧ answers (ss (page E pressed r).2) = answers (ss r))
  ∨ (step (ss (page E pressed r).2) = 0%nat
     ∧ answers (ss (page E pressed r).2) = []).
Proof.
  destruct (decide (pressed = Some PlayAgain)) as [->|Hp].
  - destruct (page_play_again E r)
      as [(_ & ? & ? & _) | (_ & d & c & t & _ & _ & ? & ? & _)]; auto.
  - destruct (page_frame E pressed r Hp) as (_ & ? & ? & _). auto.
Qed.

Lemma run_first E pressed w s' :
  session w = None →
  session (run E pressed w) = Some s' →
  step s' = 0%nat ∧ answers s' = [].
Proof.
  intros Hnone.
  destruct (run_cases E pressed w) as [(_ & e & _ & ->) | (s & p & -> & Hstart)];
    [done|].
  destruct Hstart as [[Hs _] | (_ & _ & Hstep & Hans & _)]; [congruence|].
  pose proof (page_step_answers E pressed {| ss := s; proc := p; out := [] |}) as H.
  destruct (page E pressed _) as [res r']. cbn [snd ss] in H.
  destruct (finish_spec res r') as (o & -> & _). intros [= <-]. cbn.
  rewrite Hstep, Hans in H. by destruct H.
Qed.

(** In a consistent world a press of Play Again finds the frame of the
    session in the cache: the session starts over on that very frame, and
    nothing is drawn from the entropy. *)
Lemma run_play_again E w s :
  consistent w → again_ready w →
  enabled (Press PlayAgain) w = true →
  session w = Some s →
  ∃ s', session (run E (Some PlayAgain) w) = Some s'
      ∧ df s' = df s ∧ step s' = 0%nat ∧ answers s' = []
      ∧ show_real s' = false
      ∧ process (run E (Some PlayAgain) w) = process w.
Proof.
  intros Hw Hagain Hen Hs.
  destruct (Hw s Hs) as (_ & _ & Hcache).
  destruct (Hagain Hen) as (s0 & Hs0 & Hstate). simplify_eq.
  pose proof (load_metadata_cached_hit E _ _ _ (entropy (process w)) _ Hcache) as Hhit.
  unfold run. rewrite Hs.
  set (r := {| ss := s; proc := process w; out := [] |}).
  assert (Hgoal : df (ss (page E (Some PlayAgain) r).2) = df s
                  ∧ step (ss (page E (Some PlayAgain) r).2) = 0%nat
                  ∧ answers (ss (page E (Some PlayAgain) r).2) = []
                  ∧ show_real (ss (page E (Some PlayAgain) r).2) = false
                  ∧ proc (page E (Some PlayAgain) r).2 = process w).
  { destruct Hstate as [[Hle Hne] | (Hstep & Hans & Hshow)].
    - destruct (page_summary_reset E r Hne Hle _ _ _ Hhit) as [-> ->].
      cbn. by destruct (process w).
    - destruct (page_play_again E r)
        as [(-> & -> & -> & -> & Hc & Ht)
           | (_ & d & c & t & Hl & -> & -> & -> & -> & _ & ->)].
      + cbn. repeat (split; [done|]).
        destruct (proc _), (process w). cbn in *. by subst.
      + cbn in Hl. rewrite Hhit in Hl. simplify_eq.
        repeat (split; [done|]). by destruct (process w). }
  destruct (page E (Some PlayAgain) r) as [res r']. cbn [snd] in Hgoal.
  destruct (finish_spec res r') as (o & -> & _). eexists. split; [done|].
  cbn. by destruct Hgoal as (-> & -> & -> & -> & ->).
Qed.

Lemma record_answer_ok s guess_text correct_choice :
  widgets s !! guess_key (step s) = Some guess_text →
  widgets s !! correct_key (step s) = Some correct_choice →
  record_answer s =
    Ok {| df := df s; step := step s + 1;
          answers := answers s ++ [ {| guess := guess_text;
                                       correct := String.eqb correct_choice "Yes" |} ];
          show_real := false; widgets := widgets s |}.
Proof.
  intros Hg Hc. unfold record_answer, session_getitem. by rewrite Hg, Hc.
Qed.

Lemma deliver_invariant E ev w :
  consistent w → next_ready w →
  enabled ev w = true →
  consistent (deliver E ev w)
  ∧ next_ready (deliver E ev w)
  ∧ again_ready (deliver E ev w).
Proof.
  intros Hw Hnext Hen.
  assert (Hset : ∀ key value, consistent (set_widget key value w)).
  { intros key value s. unfold set_widget. cbn.
    destruct (session w) as [s0|] eqn:Hs0; [|done].
    intros [= <-]. cbn. by apply Hw. }
  destruct ev as [|[]| |]; cbn [deliver]; try (by apply run_invariant).
  destruct (Hnext Hen) as (s & Hs & Hlt & [g Hg] & [c Hc]).
  rewrite Hs, (record_answer_ok _ _ _ Hg Hc).
  apply run_invariant. intros s' [= <-]. cbn.
  destruct (Hw s Hs) as (Hlen & _ & Hcache).
  rewrite length_app. cbn. split; [lia|]. split; [lia|done].
Qed.

Lemma reachable_invariant E w :
  reachable E w → consistent w ∧ next_ready w ∧ again_ready w.
Proof.
  induction 1 as [p | w ev _ (Hw & Hnext & _) Hen].
  - split; [|split]; [by intros s [=] | by intros [=] | by intros [=]].
  - by apply deliver_invariant.
Qed.

(** ** The advance *)

Lemma deliver_next_ok E w s guess_text correct_choice :
  session w = Some s →
  widgets s !! guess_key (step s) = Some guess_text →
  widgets s !! correct_key (step s) = Some correct_choice →
  ∃ s', session (deliver E (Press Next) w) = Some s'
      ∧ df s' = df s
      ∧ step s' = (step s + 1)%nat
      ∧ answers s' = (answers s ++ [ {| guess := guess_text;
                                        correct := String.eqb correct_choice "Yes" |} ])%list
      ∧ show_real s' = false.
Proof.
  intros Hs Hg Hc. cbn [deliver]. rewrite Hs, (record_answer_ok s _ _ Hg Hc).
  match goal with
  | |- context [run E (Some Next) ?w1] =>
      destruct (run_frame E (Some Next) w1 _ ltac:(done) eq_refl)
        as (s' & Hs' & Hdf & Hstep & Hans & _ & Hshow)
  end.
  exists s'. split; [exact Hs'|]. rewrite Hdf, Hstep, Hans, Hshow by done. done.
Qed.

(** C2: the advance reads the guess and the self-assessment under the keys
    of the round being played, appends one record built from them, the
    answer counted correct when the choice is Yes, moves to the next round
    and hides the original again, all in the one callback that runs before
    the page is written anew. *)
Theorem advance_records_answer E w s guess_text correct_choice :
  session w = Some s →
  widgets s !! guess_key (step s) = Some guess_text →
  widgets s !! correct_key (step s) = Some correct_choice →
  record_answer s =
    Ok {| df := df s; step := step s + 1;
          answers := answers s ++ [ {| guess := guess_text;
                                       correct := String.eqb correct_choice "Yes" |} ];
          show_real := false; widgets := widgets s |}
  ∧ ∃ s', session (deliver E (Press Next) w) = Some s'
        ∧ df s' = df s
        ∧ step s' = (step s + 1)%nat
        ∧ answers s' = (answers s ++ [ {| guess := guess_text;
                                          correct := String.eqb correct_choice "Yes" |} ])%list
        ∧ show_real s' = false.
Proof.
  intros Hs Hg Hc. split; [by apply record_answer_ok | by apply deliver_next_ok].
Qed.

Lemma advance_records_answer_witness :
  ∃ s', session (deliver Demo.E (Press Next) Demo.revealed) = Some s'
      ∧ step s' = 1%nat
      ∧ answers s' = [ {| guess := "nose"; correct := true |} ]
      ∧ show_real s' = false.
Proof.
  destruct (advance_records_answer Demo.E Demo.revealed
              (Demo.session_of Demo.revealed) "nose" "Yes")
    as [_ (s' & Hs' & _ & Hstep' & Hans' & Hshow')].
  - vm_compute. reflexivity.
  - vm_compute. reflexivity.
  - vm_compute. reflexivity.
  - exists s'. split; [exact Hs'|]. split; [exact Hstep'|]. split; [exact Hans'|].
    exact Hshow'.
Defined.

(** A Next button written by a run comes with the widgets of the round the
    session is in; the radio holds Yes if the session held nothing for it. *)
Lemma run_next E pressed w s :
  session w = Some s →
  enabled (Press Next) (run E pressed w) = true →
  ∃ s1 g c,
    session (run E pressed w) = Some s1
    ∧ df s1 = df s ∧ step s1 = step s ∧ answers s1 = answers s
    ∧ (step s < length (rows (df s)))%nat
    ∧ widgets s1 !! guess_key (step s) = Some g
    ∧ widgets s1 !! correct_key (step s) = Some c
    ∧ (widgets s !! correct_key (step s) = None → c = "Yes").
Proof.
  intros Hs. unfold run, enabled. rewrite Hs.
  set (r := {| ss := s; proc := process w; out := [] |}).
  destruct (page_buttons E pressed r eq_refl eq_refl) as [Hnext _].
  assert (Hcore : (df (ss (page E pressed r).2) = df s
                   ∧ step (ss (page E pressed r).2) = step s
                   ∧ answers (ss (page E pressed r).2) = answers s)
                  ∨ (length (rows (df s)) ≤ step s)%nat).
  { destruct (decide (pressed = Some PlayAgain)) as [->|Hp].
    - destruct (page_play_again E r) as [(? & ? & ? & _) | (? & _)]; auto.
    - destruct (page_frame E pressed r Hp) as (? & ? & ? & _). auto. }
  destruct (page E pressed r) as [res r']. cbn [snd ss] in Hnext, Hcore.
  destruct (finish_spec res r') as (o & -> & Hbuttons & Hkeys).
  cbn [screen session]. rewrite Hbuttons. intros Hb.
  destruct (Hnext Hb) as (Hlt & Hg & Hc & [g Hgv] & c & Hcv & Hdflt).
  subst r. cbn [ss proc out] in *.
  destruct Hcore as [(Hdf & Hstep & Hans) | Hle]; [|lia].
  eexists _, g, c. split; [done|]. cbn.
  repeat (split; [done|]).
  split; [|split; [|done]]; apply map_lookup_filter_Some; (split; [done|]);
    cbn; by rewrite Hkeys.
Qed.



(** ** The session as a state machine *)

Lemma play_reachable E evs w w' :
  reachable E w → play E evs w = Some w' → reachable E w'.
Proof.
  revert w. induction evs as [|ev evs IH]; intros w Hw; cbn [play].
  - by intros [= <-].
  - destruct (enabled ev w) eqn:Hen; [|done].
    apply IH. by constructor.
Qed.

(** C9: in every world a session can reach, there is one answer per round
    played and the round index lies between 0 and the length of the frame;
    the first run and Play Again leave the index at 0 with no answer, Next
    appends one answer and adds one to the index, and every other event
    (reveal, typing, choosing, a plain rerun) changes neither. *)
Theorem answers_track_rounds E w :
  reachable E w →
  (∀ s, session w = Some s →
        length (answers s) = step s
        ∧ (0 ≤ step s ≤ length (rows (df s)))%nat)
  ∧ (∀ ev s', enabled ev w = true →
              session (deliver E ev w) = Some s' →
              match session w, ev with
              | None, _ => step s' = 0%nat ∧ answers s' = []
              | Some s, Press Next =>
                  step s' = (step s + 1)%nat
                  ∧ ∃ a, answers s' = (answers s ++ [a])%list
              | Some s, Press PlayAgain => step s' = 0%nat ∧ answers s' = []
              | Some s, _ => step s' = step s ∧ answers s' = answers s
              end).
Proof.
  intros Hreach.
  destruct (reachable_invariant E w Hreach) as (Hw & Hnext & Hagain).
  split.
  { intros s Hs. destruct (Hw s Hs) as (? & ? & _). lia. }
  intros ev s' Hen. destruct (session w) as [s|] eqn:Hs.
  - assert (Hkeep : ∀ w0 s0 pressed,
              session w0 = Some s0 → step s0 = step s → answers s0 = answers s →
              pressed ≠ Some PlayAgain →
              session (run E pressed w0) = Some s' →
              step s' = step s ∧ answers s' = answers s).
    { intros w0 s0 pressed Hs0 Hst Han Hp Hs'.
      destruct (run_frame E pressed w0 s0 Hp Hs0) as (s1 & Hs1 & _ & ? & ? & _).
      simplify_eq. split; congruence. }
    destruct ev as [|[]| |]; cbn [deliver].
    + by apply (Hkeep w s None).
    + by apply (Hkeep w s (Some RevealOriginal)).
    + destruct (Hnext Hen) as (s0 & Hs0 & _ & [g Hg] & [c Hc]). simplify_eq.
      rewrite Hs, (record_answer_ok _ _ _ Hg Hc). intros Hs'.
      match type of Hs' with
      | context [run E (Some Next) ?w1] =>
          destruct (run_frame E (Some Next) w1 _ ltac:(done) eq_refl)
            as (s1 & Hs1 & _ & Hstep & Hans & _)
      end.
      simplify_eq. rewrite Hstep, Hans. cbn. eauto.
    + intros Hs'.
      destruct (run_play_again E w s Hw Hagain Hen Hs) as (s1 & Hs1 & _ & ? & ? & _).
      by simplify_eq.
    + unfold set_widget. rewrite Hs. cbn [fmap option_fmap option_map].
      by eapply (Hkeep _ _ None); [reflexivity|..].
    + unfold set_widget. rewrite Hs. cbn [fmap option_fmap option_map].
      by eapply (Hkeep _ _ None); [reflexivity|..].
  - assert (Hset : ∀ key value, session (set_widget key value w) = None).
    { intros. unfold set_widget. by rewrite Hs. }
    destruct ev as [|[]| |]; cbn [deliver]; rewrite ?Hs; by apply run_first.
Qed.

Lemma answers_track_rounds_witness :
  length (answers (Demo.session_of Demo.finished))
  = step (Demo.session_of Demo.finished)
  ∧ (0 ≤ step (Demo.session_of Demo.finished)
     ≤ length (rows (df (Demo.session_of Demo.finished))))%nat.
Proof.
  refine (proj1 (answers_track_rounds Demo.E Demo.finished _) _ _).
  - apply (play_reachable Demo.E Demo.game (fresh Demo.p0)); [constructor|].
    vm_compute. reflexivity.
  - vm_compute. reflexivity.
Defined.

(** ** The self-assessment *)

(** C10: the recorded flag is true exactly when the radio's value is the
    string Yes, compared as it is; and a radio the session held no value
    for holds Yes once rendered, so that Next pressed on the page that first
    shows it records a correct answer. *)
Theorem correct_iff_yes E pressed w s :
  session w = Some s →
  (∀ g c,
     widgets s !! guess_key (step s) = Some g →
     widgets s !! correct_key (step s) = Some c →
     ∃ a, record_answer s =
            Ok {| df := df s; step := step s + 1; answers := answers s ++ [a];
                  show_real := false; widgets := widgets s |}
        ∧ guess a = g
        ∧ (correct a = true ↔ c = "Yes"))
  ∧ (widgets s !! correct_key (step s) = None →
     enabled (Press Next) (run E pressed w) = true →
     ∃ s' g, session (deliver E (Press Next) (run E pressed w)) = Some s'
           ∧ answers s' = (answers s ++ [ {| guess := g; correct := true |} ])%list).
Proof.
  intros Hs. split.
  - intros g c Hg Hc. eexists. split; [by apply record_answer_ok|].
    split; [done|]. cbn. apply String.eqb_eq.
  - intros Hnone Hen.
    destruct (run_next E pressed w s Hs Hen)
      as (s1 & g & c & Hs1 & _ & Hstep & Hans & _ & Hg & Hc & Hdflt).
    rewrite <-Hstep in Hg, Hc.
    destruct (deliver_next_ok E _ s1 g c Hs1 Hg Hc) as (s' & Hs' & _ & _ & Hans' & _).
    exists s', g. split; [done|]. rewrite Hans', Hans, (Hdflt Hnone). done.
Qed.

Lemma correct_iff_yes_witness :
  ∃ s' g,
    session (deliver Demo.E (Press Next)
               (run Demo.E (Some RevealOriginal) Demo.guessing)) = Some s'
    ∧ answers s' = [ {| guess := g; correct := true |} ].
Proof.
  destruct (correct_iff_yes Demo.E (Some RevealOriginal) Demo.guessing
              (Demo.session_of Demo.guessing)) as [_ H].
  - vm_compute. reflexivity.
  - apply H; vm_compute; reflexivity.
Defined.

(** ** Absent images *)



(** ** Play Again *)

(** Wherever a session can press Play Again, the cached loader hands back
    the frame the session already plays on: the index, the answers and
    [show_real] start over, the rows keep their order, and nothing is drawn
    from the entropy. *)
Lemma play_again_reuses_cache E w s :
  reachable E w →
  enabled (Press PlayAgain) w = true →
  session w = Some s →
  ∃ s', session (deliver E (Press PlayAgain) w) = Some s'
      ∧ df s' = df s ∧ step s' = 0%nat ∧ answers s' = []
      ∧ show_real s' = false
      ∧ process (deliver E (Press PlayAgain) w) = process w.
Proof.
  intros Hreach Hen Hs.
  destruct (reachable_invariant E w Hreach) as (Hw & _ & Hagain).
  by apply run_play_again.
Qed.

(** C1, on the demo session once its three rounds are played: Play Again
    is offered and starts the index, the answers and [show_real] over, but
    the frame it stores is the cached one, rows in the order already played,
    and the entropy is left untouched, although a load would have drawn from
    it and ordered the rows otherwise. *)
Theorem play_again_keeps_order :
  enabled (Press PlayAgain) Demo.finished = true
  ∧ ∃ s s' reloaded,
      session Demo.finished = Some s
      ∧ session (deliver Demo.E (Press PlayAgain) Demo.finished) = Some s'
      ∧ step s' = 0%nat ∧ answers s' = [] ∧ show_real s' = false
      ∧ df s' = df s
      ∧ entropy (process (deliver Demo.E (Press PlayAgain) Demo.finished))
        = entropy (process Demo.finished)
      ∧ (load_metadata Demo.E "manipulation_info.csv" ROUNDS
           (entropy (process Demo.finished))).1 = Ok reloaded
      ∧ rows reloaded ≠ rows (df s').
Proof.
  split; [vm_compute; reflexivity|].
  exists (Demo.session_of Demo.finished),
    (Demo.session_of (deliver Demo.E (Press PlayAgain) Demo.finished)),
    (Demo.reloaded Demo.finished).
  split; [vm_compute; reflexivity|].
  split; [vm_compute; reflexivity|].
  split; [vm_compute; reflexivity|].
  split; [vm_compute; reflexivity|].
  split; [vm_compute; reflexivity|].
  split; [vm_compute; reflexivity|].
  split; [vm_compute; reflexivity|].
  split; [vm_compute; reflexivity|].
  vm_compute. discriminate.
Qed.

(** * Further properties of the helpers, the loader's cache and the page *)

(** ** Paths *)

Lemma split_segments_no_sep sep s seg :
  seg ∈ pystr.split sep s → contains sep seg = false.
Proof.
  revert seg. induction s as [|c s IH]; intros seg; simpl.
  - intros ->%list_elem_of_singleton. done.
  - destruct (Ascii.eqb c sep) eqn:Hc.
    + intros [->|Hin]%elem_of_cons; [done|by apply IH].
    + destruct (pystr.split sep s) as [|h t] eqn:Hs.
      * by destruct (split_not_nil sep s).
      * intros [->|Hin]%elem_of_cons.
        -- simpl. rewrite Hc. apply IH. left.
        -- apply IH. by right.
Qed.

Lemma no_sep_not_startswith s :
  contains posixpath.sep s = false → posixpath.startswith_sep s = false.
Proof. destruct s as [|c s]; simpl; [done|]. by intros [? _]%orb_false_iff. Qed.

Lemma startswith_sep_app a b :
  posixpath.startswith_sep (a +:+ b) =
    if String.eqb a "" then posixpath.startswith_sep b
    else posixpath.startswith_sep a.
Proof. by destruct a. Qed.

Lemma join2_relative a b :
  posixpath.startswith_sep a = false →
  contains posixpath.sep b = false →
  posixpath.startswith_sep (posixpath.join2 a b) = false.
Proof.
  intros Ha Hb. pose proof (no_sep_not_startswith b Hb) as Hb'.
  unfold posixpath.join2. rewrite Hb'.
  destruct (String.eqb a "") eqn:Ha0; simpl.
  - rewrite startswith_sep_app, Ha0. done.
  - destruct (posixpath.endswith_sep a); by rewrite startswith_sep_app, Ha0.
Qed.

Lemma join_relative a p :
  posixpath.startswith_sep a = false →
  (∀ b, b ∈ p → contains posixpath.sep b = false) →
  posixpath.startswith_sep (posixpath.join a p) = false.
Proof.
  unfold posixpath.join. revert a. induction p as [|b p IH]; intros a Ha Hp; simpl.
  - done.
  - apply IH.
    + apply join2_relative; [done|]. apply Hp. left.
    + intros b' Hb'. apply Hp. by right.
Qed.

Lemma _norm_rel_path_relative rel :
  posixpath.startswith_sep (_norm_rel_path rel) = false.
Proof.
  unfold _norm_rel_path.
  set (r := pystr.strip _).
  destruct (String.eqb r "") eqn:Hr; [by apply String.eqb_eq in Hr as ->|].
  destruct (pystr.split "/" r) as [|a p] eqn:Hs; [by destruct (split_not_nil "/" r)|].
  assert (Hseg : ∀ b, b ∈ a :: p → contains posixpath.sep b = false).
  { intros b Hb. apply (split_segments_no_sep "/" r). by rewrite Hs. }
  apply join_relative.
  - apply no_sep_not_startswith, Hseg. left.
  - intros b Hb. apply Hseg. by right.
Qed.

Lemma prefix_app a b : String.prefix a (a +:+ b) = true.
Proof.
  induction a as [|c a IH]; simpl; [by destruct b|].
  destruct (ascii_dec c c); [done|congruence].
Qed.

(** X1: on a POSIX platform, where [os.path.join] is [posixpath.join],
    whatever the manifest writes as a path, leading separators included,
    the path it is resolved to begins with [WWW_DIR]: the join never
    restarts from an absolute path. *)
Theorem _abs_from_rel_under_root E rel :
  String.prefix (WWW_DIR E) (_abs_from_rel E rel) = true.
Proof.
  unfold _abs_from_rel, posixpath.join. simpl. unfold posixpath.join2.
  rewrite _norm_rel_path_relative.
  destruct (_ || _); apply prefix_app.
Qed.

Lemma replace_idemp old new s :
  old ≠ new →
  pystr.replace old new (pystr.replace old new s) = pystr.replace old new s.
Proof.
  intros Hne. induction s as [|c s IH]; simpl; [done|]. rewrite IH. f_equal.
  destruct (Ascii.eqb c old) eqn:Hc; [|by rewrite Hc].
  destruct (Ascii.eqb new old) eqn:Hn; [|done].
  apply Ascii.eqb_eq in Hn. congruence.
Qed.

Lemma replace_only_seps s :
  only_seps s = true →
  only_seps (pystr.replace posixpath.backslash "/" s) = true
  ∧ contains posixpath.backslash (pystr.replace posixpath.backslash "/" s) = false.
Proof.
  induction s as [|c s IH]; simpl; [done|].
  intros [Hc Hs]%andb_true_iff. destruct (IH Hs) as [IH1 IH2].
  rewrite IH1, IH2.
  destruct (Ascii.eqb c posixpath.backslash) eqn:Hb; [done|].
  rewrite Hb. rewrite orb_false_r in Hc. by rewrite Hc.
Qed.

Lemma slashes_strip s :
  only_seps s = true → contains posixpath.backslash s = false →
  pystr.strip s = s.
Proof.
  intros Hs Hb.
  assert (Hr : pystr.rstrip s = s).
  { induction s as [|c s IH]; simpl in *; [done|].
    apply andb_true_iff in Hs as [Hc Hs]. apply orb_false_iff in Hb as [Hcb Hb].
    rewrite IH by done. rewrite Hcb, orb_false_r in Hc.
    apply Ascii.eqb_eq in Hc as ->. by destruct s. }
  unfold pystr.strip. destruct s as [|c s]; [done|].
  simpl in Hs, Hb. apply andb_true_iff in Hs as [Hc _].
  apply orb_false_iff in Hb as [Hcb _]. rewrite Hcb, orb_false_r in Hc.
  apply Ascii.eqb_eq in Hc as ->. done.
Qed.

Lemma slashes_split s :
  only_seps s = true → contains posixpath.backslash s = false →
  ∀ seg, seg ∈ pystr.split "/" s → seg = "".
Proof.
  induction s as [|c s IH]; simpl.
  - intros _ _ seg ->%list_elem_of_singleton. done.
  - intros [Hc Hs]%andb_true_iff [Hcb Hb]%orb_false_iff.
    rewrite Hcb, orb_false_r in Hc. unfold posixpath.sep in Hc. rewrite Hc.
    intros seg [->|Hin]%elem_of_cons; [done|by apply IH].
Qed.

Lemma join_empty p : (∀ b, b ∈ p → b = "") → posixpath.join "" p = "".
Proof.
  unfold posixpath.join. induction p as [|b p IH]; intros Hp; simpl; [done|].
  rewrite (Hp b) by left. apply IH. intros b' Hb'. apply Hp. by right.
Qed.

(** X2: a path written with only separators, forward or backward, is
    normalised to the empty path and so resolves to the asset root itself,
    as the empty path would. *)
Theorem _norm_rel_path_only_seps E rel :
  only_seps rel = true →
  _norm_rel_path rel = ""
  ∧ _abs_from_rel E rel = _abs_from_rel E "".
Proof.
  intros Hrel.
  assert (Hnorm : _norm_rel_path rel = "").
  { unfold _norm_rel_path.
    destruct (replace_only_seps rel Hrel) as [Hs Hb].
    rewrite (slashes_strip _ Hs Hb).
    set (r := pystr.replace _ _ rel) in *.
    destruct (String.eqb r "") eqn:Hr; [by apply String.eqb_eq|].
    pose proof (slashes_split r Hs Hb) as Hseg.
    destruct (pystr.split "/" r) as [|a p] eqn:Hsp;
      [by destruct (split_not_nil "/" r)|].
    rewrite (Hseg a) by left. apply join_empty.
    intros b Hb'. apply Hseg. by right. }
  split; [done|]. unfold _abs_from_rel. by rewrite Hnorm.
Qed.

Lemma _norm_rel_path_only_seps_witness :
  _norm_rel_path (String "/" (String posixpath.backslash "/")) = ""
  ∧ _abs_from_rel Demo.E (String "/" (String posixpath.backslash "/"))
    = _abs_from_rel Demo.E "".
Proof.
  apply (_norm_rel_path_only_seps Demo.E). vm_compute. reflexivity.
Defined.

(** X3: a path written with backslashes resolves to the same place as the
    path written with forward slashes. *)
Theorem _abs_from_rel_backslash E rel :
  _abs_from_rel E (pystr.replace posixpath.backslash "/" rel) = _abs_from_rel E rel.
Proof.
  unfold _abs_from_rel, _norm_rel_path. by rewrite replace_idemp.
Qed.

(** ** [load_image], beyond the absent image *)

(** X4: [load_image] returns None only for an absent image, never for a
    file it found; and it writes a warning exactly when the path is a
    non-blank string that names nothing, the warning giving the resolved
    path: in every other case it writes nothing. *)
Theorem load_image_none_only_absent E rel_path max_width ws res :
  load_image E rel_path max_width = (ws, res) →
  (res = Ok None ↔ absent E rel_path)
  ∧ ((∃ rel, rel_path = Some rel
           ∧ pystr.strip rel ≠ ""
           ∧ os_path_exists E (_abs_from_rel E rel) = false
           ∧ ws = [Warning ("Missing image: " +:+ _abs_from_rel E rel)])
     ∨ (ws = []
        ∧ ∀ rel, rel_path = Some rel →
                 pystr.strip rel = ""
                 ∨ os_path_exists E (_abs_from_rel E rel) = true)).
Proof.
  unfold load_image, absent. destruct rel_path as [rel|].
  2: { intros [= <- <-]. split; [done|]. right. by split. }
  destruct (String.eqb (pystr.strip rel) "") eqn:Hblank.
  { apply String.eqb_eq in Hblank. intros [= <- <-].
    split; [split; auto|]. right. split; [done|]. intros ? [= <-]. by left. }
  apply String.eqb_neq in Hblank.
  destruct (os_path_exists E (_abs_from_rel E rel)) eqn:Hex; cbn [negb].
  - intros [= <- <-]. split.
    + split; [|by intros [?|?]].
      unfold PIL.open, os_path_exists in *.
      destruct (fs E (_abs_from_rel E rel)) as [[| |w h]|]; cbn; try done.
      destruct (max_width <? w)%Z; cbn; [|done].
      destruct (pyfloat.of_int w); cbn; [|done].
      destruct (pyfloat.of_int max_width); cbn; [|done].
      destruct (pyfloat.truediv _ _); cbn; [|done].
      destruct (pyfloat.of_int h); cbn; [|done].
      destruct (pyfloat.to_int _); cbn; [|done].
      unfold PIL.resize. by destruct (_ || _).
    + right. split; [done|]. intros ? [= <-]. by right.
  - intros [= <- <-]. split; [split; auto|]. left. by exists rel.
Qed.

Lemma load_image_none_only_absent_witness :
  absent Demo.E (Some "real/gone.jpg")
  ∧ load_image Demo.E (Some "real/gone.jpg") 450
    = ([Warning "Missing image: /srv/www/real/gone.jpg"], Ok None).
Proof.
  assert (H : load_image Demo.E (Some "real/gone.jpg") 450
              = ([Warning "Missing image: /srv/www/real/gone.jpg"], Ok None))
    by (vm_compute; reflexivity).
  destruct (load_image_none_only_absent _ _ _ _ _ H) as ([Habs _] & _).
  split; [by apply Habs | exact H].
Defined.

(** X5: an image that [load_image] returns is never wider than
    [max_width]; when it was resized, it was wider before, the filter is
    LANCZOS, and neither side of the result is below one pixel. *)
Theorem load_image_fits E rel_path max_width ws img :
  load_image E rel_path max_width = (ws, Ok (Some img)) →
  (PIL.width img ≤ max_width)%Z
  ∧ ∀ src w h resample,
      img = PIL.Resized src w h resample →
      (max_width < PIL.width src)%Z ∧ w = max_width
      ∧ (1 ≤ w)%Z ∧ (1 ≤ h)%Z ∧ resample = PIL.LANCZOS.
Proof.
  unfold load_image. destruct rel_path as [rel|]; [|done].
  destruct (String.eqb (pystr.strip rel) ""); [done|].
  destruct (negb _); [done|]. unfold PIL.open.
  destruct (fs E (_abs_from_rel E rel)) as [[| |w h]|]; cbn; try done.
  destruct (Z.ltb_spec max_width w) as [Hlt|Hge]; cbn.
  - destruct (pyfloat.of_int w); cbn; [|done].
    destruct (pyfloat.of_int max_width); cbn; [|done].
    destruct (pyfloat.truediv _ _); cbn; [|done].
    destruct (pyfloat.of_int h); cbn; [|done].
    destruct (pyfloat.to_int _) as [h'|]; cbn; [|done].
    unfold PIL.resize.
    destruct (Z.ltb_spec max_width 1), (Z.ltb_spec h' 1); cbn; try done.
    intros [= _ <-]. cbn. split; [lia|]. intros ? ? ? ? [= <- <- <- <-].
    cbn. repeat split; lia || done.
  - intros [= _ <-]. cbn. split; [lia|]. by intros.
Qed.

Lemma load_image_fits_witness :
  (PIL.width (PIL.Resized (PIL.Opened "/srv/www/fake/c.jpg" 451 100)
                450 99 PIL.LANCZOS) ≤ 450)%Z.
Proof.
  apply (load_image_fits Demo.E (Some "fake/c.jpg") 450 []).
  vm_compute. reflexivity.
Defined.

(** ** The cache of the loader *)

(** X6: once a load has succeeded, every later call with the same
    arguments returns the same frame, whatever has become of the manifest
    and of the files, and draws nothing from the entropy. *)
Theorem cached_load_is_sticky E csv_path rounds c t d c' t' :
  load_metadata_cached E csv_path rounds c t = (Ok d, c', t') →
  ∀ E' t'', load_metadata_cached E' csv_path rounds c' t'' = (Ok d, c', t'').
Proof.
  intros Hl E' t''. apply load_metadata_cached_hit.
  by eapply load_metadata_cached_ok.
Qed.

Lemma cached_load_is_sticky_witness :
  load_metadata_cached Demo.gone "manipulation_info.csv" ROUNDS Demo.warm [7]%nat
  = (Ok (Demo.reloaded (fresh Demo.p0)), Demo.warm, [7]%nat).
Proof.
  apply (cached_load_is_sticky Demo.E "manipulation_info.csv" ROUNDS ∅
           [0; 0; 0]%nat _ _ []).
  vm_compute. reflexivity.
Defined.

(** X7: a call of the cached loader leaves the entries of other arguments
    alone; a call that raises was a miss, stores nothing and draws nothing,
    so that the next call reads the manifest again. *)
Theorem failed_load_not_cached E csv_path rounds c t res c' t' :
  load_metadata_cached E csv_path rounds c t = (res, c', t') →
  (∀ k, k ≠ (csv_path, rounds) → c' !! k = c !! k)
  ∧ (∀ e, res = Raise e →
          c !! (csv_path, rounds) = None ∧ c' = c ∧ t' = t
          ∧ (load_metadata E csv_path rounds t).1 = Raise e).
Proof.
  unfold load_metadata_cached.
  destruct (c !! (csv_path, rounds)) as [d0|] eqn:Hc.
  { intros [= <- <- <-]. split; [done|]. by intros. }
  destruct (load_metadata E csv_path rounds t) as [[d|e0] t1] eqn:Hl.
  - intros [= <- <- <-]. split; [|by intros].
    intros k Hk. by apply lookup_insert_ne.
  - intros [= <- <- <-]. split; [done|]. intros e [= <-].
    by rewrite (load_metadata_raise _ _ _ _ _ _ Hl).
Qed.

Lemma failed_load_not_cached_witness :
  (∅ : gmap (string * Z) DataFrame) !! ("no_real_path.csv", 10%Z) = None
  ∧ (load_metadata Demo.E "no_real_path.csv" 10 [1; 2; 3]%nat).1
    = Raise (ValueError "CSV missing required columns: ['real_path']").
Proof.
  destruct (failed_load_not_cached Demo.E "no_real_path.csv" 10 ∅ [1; 2; 3]%nat
              (Raise (ValueError "CSV missing required columns: ['real_path']"))
              ∅ [1; 2; 3]%nat) as [_ H].
  - vm_compute. reflexivity.
  - destruct (H _ eq_refl) as (H1 & _ & _ & H2). split; [exact H1 | exact H2].
Defined.

(** ** The page, branch by branch *)

(** A registered widget holds a value afterwards, its default if the
    session held none, and no widget loses the value it held. *)
Lemma wp_register_held key dflt r (Q : result string → Run → Prop) :
  (∀ v w',
     w' !! key = Some v →
     (widgets (ss r) !! key = None → v = dflt) →
     (∀ k v0, widgets (ss r) !! k = Some v0 → w' !! k = Some v0) →
     Q (Ok v)
       {| ss := {| df := df (ss r); step := step (ss r); answers := answers (ss r);
                   show_real := show_real (ss r); widgets := w' |};
          proc := proc r; out := out r |}) →
  wp (register key dflt) r Q.
Proof.
  intros H. unfold wp, register.
  destruct (widgets (ss r) !! key) as [v|] eqn:Hk; cbn [fst snd].
  - destruct r as [[] ? ?]. by apply (H v).
  - apply H; [apply lookup_insert_eq | done |].
    intros k v0 Hk0. rewrite lookup_insert_ne; [done|congruence].
Qed.

Ltac wp_step_held :=
  lazymatch goal with
  | |- wp (register _ _) _ _ =>
      let H1 := fresh "Hheld" in
      let H2 := fresh "Hdflt" in
      let H3 := fresh "Hkept" in
      apply wp_register_held; intros ? ? H1 H2 H3;
      cbn [ss proc out df step answers show_real widgets] in H2, H3
  | _ => wp_step
  end.

Lemma page_keeps_widgets E pressed r :
  wp (page E pressed) r (λ _ r',
    ∀ key v, widgets (ss r) !! key = Some v → widgets (ss r') !! key = Some v).
Proof.
  unfold page. repeat wp_step_held. all: eauto.
Qed.

(** Within a round the text input is written before anything can raise. *)
Lemma page_text_input E pressed r :
  (step (ss r) < length (rows (df (ss r))))%nat →
  wp (page E pressed) r (λ _ r',
    guess_key (step (ss r)) ∈ widget_keys (out r')).
Proof.
  intros Hlt. destruct (lookup_lt_is_Some_2 _ _ Hlt) as [row Hrow].
  unfold page. repeat wp_step.
  all: wp_facts; try lia; simplify_eq.
  all: rewrite !widget_keys_app; widget_keys_singletons.
  all: rewrite !elem_of_app, !list_elem_of_singleton; tauto.
Qed.

(** Within a round a press of Reveal sets [show_real]. *)
Lemma page_reveal E r :
  (step (ss r) < length (rows (df (ss r))))%nat →
  wp (page E (Some RevealOriginal)) r (λ _ r', show_real (ss r') = true).
Proof.
  intros Hlt. destruct (lookup_lt_is_Some_2 _ _ Hlt) as [row Hrow].
  unfold page. repeat wp_step.
  all: wp_facts; try lia; try congruence; simplify_eq; done.
Qed.

(** Once an image of the round raises, the page stops before the Next
    button. *)
Lemma page_unreadable E pressed r row c ws e :
  rows (df (ss r)) !! step (ss r) = Some row →
  c ∈ [pandas.getitem (columns (df (ss r))) row "fake_path";
       pandas.getitem (columns (df (ss r))) row "real_path"] →
  load_image E c 450 = (ws, Raise e) →
  has_button Next (out r) = false →
  wp (page E pressed) r (λ _ r', has_button Next (out r') = false).
Proof.
  intros Hrow Hc Hl HN. pose proof (lookup_lt_Some _ _ _ Hrow) as Hlt.
  apply list_elem_of_In in Hc. destruct Hc as [<- | [<- | []]].
  all: unfold page; repeat wp_step.
  all: wp_facts; try lia; try congruence.
  all: rewrite ?has_button_app; page_facts; rewrite ?HN; done.
Qed.

(** With the rounds exhausted the page is the summary: the number of
    answers counted correct, the length of the frame, the answers, and the
    Play Again button. *)
Lemma page_summary E pressed r :
  length (rows (df (ss r))) ≠ 0%nat →
  (length (rows (df (ss r))) ≤ step (ss r))%nat →
  wp (page E pressed) r (λ res r',
    out r' = (out r ++ [Title;
                        Summary (length (List.filter correct (answers (ss r))))
                                (length (rows (df (ss r))));
                        Table (answers (ss r));
                        Button PlayAgain])%list
    ∧ (pressed ≠ Some PlayAgain → res = Ok ())).
Proof.
  intros Hne Hle. unfold page. repeat wp_step.
  all: wp_facts; try lia.
  all: split; [by rewrite <-!app_assoc | done].
Qed.

(** With a frame without rows the page is the title and the error, and the
    script stops there. *)
Lemma page_no_rows E pressed r :
  length (rows (df (ss r))) = 0%nat →
  page E pressed r =
    (Raise StopException,
     {| ss := ss r; proc := proc r; out := (out r ++ [Title]) ++ [NoValidRows] |}).
Proof.
  intros H0. unfold page, mbind, script_bind, get_session, emit, st_stop, raise.
  cbn. by rewrite H0.
Qed.

(** ** Runs, branch by branch *)

Lemma finish_screen res r :
  screen (finish (res, r)) =
    match res with
    | Ok _ | Raise StopException => out r
    | Raise e => (out r ++ [Traceback e])%list
    end.
Proof. destruct res as [[]|[]]; done. Qed.

Lemma filter_correct_length (l : list Answer) :
  (length (List.filter correct l) ≤ length l)%nat.
Proof.
  induction l as [|a l IH]; simpl; [done|]. destruct (correct a); simpl; lia.
Qed.

(** X8: when a session has played all its rounds, a run writes the summary
    and nothing else: the count of the answers recorded as correct, out of
    the length of the frame, which is also the number of answers, the
    answers in round order, and the Play Again button. *)
Theorem summary_counts E pressed w s :
  consistent w →
  session w = Some s →
  length (rows (df s)) ≠ 0%nat →
  (length (rows (df s)) ≤ step s)%nat →
  pressed ≠ Some PlayAgain →
  screen (run E pressed w) =
    [Title;
     Summary (length (List.filter correct (answers s))) (length (answers s));
     Table (answers s);
     Button PlayAgain]
  ∧ length (answers s) = length (rows (df s))
  ∧ (length (List.filter correct (answers s)) ≤ length (answers s))%nat.
Proof.
  intros Hw Hs Hne Hle Hp. destruct (Hw s Hs) as (Hlen & Hstep & _).
  assert (Htotal : length (answers s) = length (rows (df s))) by lia.
  split; [|split; [done | apply filter_correct_length]].
  unfold run. rewrite Hs.
  set (r := {| ss := s; proc := process w; out := [] |}).
  destruct (page_summary E pressed r Hne Hle) as [Hout Hres].
  destruct (page E pressed r) as [res r']. cbn [fst snd] in Hout, Hres.
  rewrite finish_screen, (Hres Hp), Hout. cbn. by rewrite Htotal.
Qed.

Lemma summary_counts_witness :
  screen (run Demo.E None Demo.finished) =
    [Title; Summary 2 3;
     Table [ {| guess := ""; correct := true |};
             {| guess := ""; correct := false |};
             {| guess := ""; correct := true |} ];
     Button PlayAgain].
Proof.
  destruct (summary_counts Demo.E None Demo.finished
              (Demo.session_of Demo.finished)) as (H & _ & _).
  - apply (reachable_invariant Demo.E).
    apply (play_reachable Demo.E Demo.game (fresh Demo.p0)); [constructor|].
    vm_compute. reflexivity.
  - vm_compute. reflexivity.
  - vm_compute. discriminate.
  - vm_compute. lia.
  - discriminate.
  - exact H.
Defined.

(** X9: with a frame without rows every run writes the title and the
    error and stops: the frame, the index, the answers and the process are
    as before, and the page offers nothing to act on, so that the session
    stays where it is. *)
Theorem no_rows_page E pressed w s :
  session w = Some s →
  length (rows (df s)) = 0%nat →
  screen (run E pressed w) = [Title; NoValidRows]
  ∧ process (run E pressed w) = process w
  ∧ (∃ s', session (run E pressed w) = Some s'
         ∧ df s' = df s ∧ step s' = step s ∧ answers s' = answers s
         ∧ show_real s' = show_real s)
  ∧ ∀ ev, enabled ev (run E pressed w) = true → ev = Rerun.
Proof.
  intros Hs H0. unfold run. rewrite Hs, page_no_rows by done.
  cbn. split; [done|]. split; [done|]. split; [eauto 10|].
  by intros [| | |].
Qed.

Lemma no_rows_page_witness :
  screen (run Demo.E (Some PlayAgain) Demo.barren_started) = [Title; NoValidRows]
  ∧ ∀ ev, enabled ev (run Demo.E (Some PlayAgain) Demo.barren_started) = true →
          ev = Rerun.
Proof.
  destruct (no_rows_page Demo.E (Some PlayAgain) Demo.barren_started
              (Demo.session_of Demo.barren_started)) as (H1 & _ & _ & H2).
  - vm_compute. reflexivity.
  - vm_compute. reflexivity.
  - split; [exact H1 | exact H2].
Defined.

(** X10: when an image of the round raises on load, the run ends before
    the Next button is written, whatever was pressed, and the index and the
    answers stay as they are: the round cannot be advanced. *)
Theorem unreadable_image_blocks_round E pressed w s row c ws e :
  session w = Some s →
  rows (df s) !! step s = Some row →
  c ∈ [pandas.getitem (columns (df s)) row "fake_path";
       pandas.getitem (columns (df s)) row "real_path"] →
  load_image E c 450 = (ws, Raise e) →
  enabled (Press Next) (run E pressed w) = false
  ∧ ∃ s', session (run E pressed w) = Some s'
        ∧ df s' = df s ∧ step s' = step s ∧ answers s' = answers s.
Proof.
  intros Hs Hrow Hc Hl. pose proof (lookup_lt_Some _ _ _ Hrow) as Hlt.
  unfold run, enabled. rewrite Hs.
  set (r := {| ss := s; proc := process w; out := [] |}).
  pose proof (page_unreadable E pressed r row c ws e Hrow Hc Hl eq_refl) as Hb.
  assert (Hcore : df (ss (page E pressed r).2) = df s
                  ∧ step (ss (page E pressed r).2) = step s
                  ∧ answers (ss (page E pressed r).2) = answers s).
  { destruct (decide (pressed = Some PlayAgain)) as [->|Hp].
    - destruct (page_play_again E r) as [(? & ? & ? & _) | (Hle & _)]; [done|].
      cbn in Hle. lia.
    - by destruct (page_frame E pressed r Hp) as (? & ? & ? & _). }
  unfold wp in Hb. destruct (page E pressed r) as [res r']. cbn [snd] in Hb, Hcore.
  destruct (finish_spec res r') as (o & -> & Hbuttons & _).
  cbn [screen session]. rewrite Hbuttons. split; [done|]. eauto.
Qed.

Lemma unreadable_image_blocks_round_witness :
  enabled (Press Next) (run Demo.E (Some RevealOriginal) Demo.corrupt_started)
  = false.
Proof.
  refine (proj1 (unreadable_image_blocks_round Demo.E (Some RevealOriginal)
                   Demo.corrupt_started (Demo.session_of Demo.corrupt_started)
                   [Some "fake/g.txt"; Some "real/a.jpg"] (Some "fake/g.txt") []
                   (UnidentifiedImageError "/srv/www/fake/g.txt") _ _ _ _)).
  - vm_compute. reflexivity.
  - vm_compute. reflexivity.
  - left.
  - vm_compute. reflexivity.
Defined.

(** X11: within a round a press of Reveal sets [show_real] and changes
    nothing else: the frame, the index, the answers and the process are as
    before, and the guess already typed is kept. *)
Theorem reveal_only_flips E w s :
  session w = Some s →
  (step s < length (rows (df s)))%nat →
  ∃ s', session (deliver E (Press RevealOriginal) w) = Some s'
      ∧ show_real s' = true
      ∧ df s' = df s ∧ step s' = step s ∧ answers s' = answers s
      ∧ process (deliver E (Press RevealOriginal) w) = process w
      ∧ ∀ v, widgets s !! guess_key (step s) = Some v →
             widgets s' !! guess_key (step s) = Some v.
Proof.
  intros Hs Hlt. cbn [deliver]. unfold run. rewrite Hs.
  set (r := {| ss := s; proc := process w; out := [] |}).
  destruct (page_frame E (Some RevealOriginal) r ltac:(done))
    as (Hdf & Hstep & Hans & Hproc & _).
  pose proof (page_reveal E r Hlt) as Hshow.
  pose proof (page_keeps_widgets E (Some RevealOriginal) r) as Hkeep.
  pose proof (page_text_input E (Some RevealOriginal) r Hlt) as Hkey.
  unfold wp in *.
  destruct (page E (Some RevealOriginal) r) as [res r']. cbn [snd] in *.
  destruct (finish_spec res r') as (o & -> & _ & Hkeys).
  eexists. split; [done|]. cbn. repeat (split; [done|]).
  intros v Hv. apply map_lookup_filter_Some. split; [by apply Hkeep|].
  cbn. by rewrite Hkeys.
Qed.

Lemma reveal_only_flips_witness :
  ∃ s', session (deliver Demo.E (Press RevealOriginal) Demo.guessing) = Some s'
      ∧ show_real s' = true ∧ step s' = 0%nat ∧ answers s' = [].
Proof.
  destruct (reveal_only_flips Demo.E Demo.guessing (Demo.session_of Demo.guessing))
    as (s' & Hs' & Hshow & _ & Hstep & Hans & _).
  - vm_compute. reflexivity.
  - vm_compute. lia.
  - exists s'. split; [exact Hs'|]. split; [exact Hshow|].
    split; [exact Hstep | exact Hans].
Defined.

(** X12: in a world a session can reach, no event changes the frame the
    session plays on, nor the cache, nor the entropy: once the first run has
    loaded it, the frame stays, Play Again included. *)
Theorem events_keep_frame E w s ev :
  reachable E w →
  session w = Some s →
  enabled ev w = true →
  ∃ s', session (deliver E ev w) = Some s'
      ∧ df s' = df s
      ∧ process (deliver E ev w) = process w.
Proof.
  intros Hreach Hs Hen.
  destruct (reachable_invariant E w Hreach) as (Hw & Hnext & Hagain).
  assert (Hrun : ∀ w0 s0 pressed,
            session w0 = Some s0 → df s0 = df s → process w0 = process w →
            pressed ≠ Some PlayAgain →
            ∃ s', session (run E pressed w0) = Some s'
                ∧ df s' = df s ∧ process (run E pressed w0) = process w).
  { intros w0 s0 pressed Hs0 Hdf Hproc Hp.
    destruct (run_frame E pressed w0 s0 Hp Hs0) as (s1 & Hs1 & ? & _ & _ & ? & _).
    exists s1. split; [done|]. split; congruence. }
  destruct ev as [|[]| |]; cbn [deliver].
  - by apply (Hrun w s).
  - by apply (Hrun w s).
  - destruct (Hnext Hen) as (s0 & Hs0 & _ & [g Hg] & [c Hc]). simplify_eq.
    rewrite Hs, (record_answer_ok _ _ _ Hg Hc).
    by eapply (Hrun _ _ (Some Next)); [reflexivity|..].
  - destruct (run_play_again E w s Hw Hagain Hen Hs) as (s1 & ? & ? & _ & _ & _ & ?).
    eauto.
  - unfold set_widget. rewrite Hs. cbn [fmap option_fmap option_map].
    by eapply (Hrun _ _ None); [reflexivity|..].
  - unfold set_widget. rewrite Hs. cbn [fmap option_fmap option_map].
    by eapply (Hrun _ _ None); [reflexivity|..].
Qed.

Lemma events_keep_frame_witness :
  ∃ s', session (deliver Demo.E (Press PlayAgain) Demo.finished) = Some s'
      ∧ df s' = df (Demo.session_of Demo.finished)
      ∧ process (deliver Demo.E (Press PlayAgain) Demo.finished)
        = process Demo.finished.
Proof.
  apply (events_keep_frame Demo.E Demo.finished (Demo.session_of Demo.finished)
           (Press PlayAgain)).
  - apply (play_reachable Demo.E Demo.game (fresh Demo.p0)); [constructor|].
    vm_compute. reflexivity.
  - vm_compute. reflexivity.
  - vm_compute. reflexivity.
Defined.

(** ** From the widgets to the record *)

(** A run keeps the value the session holds for a widget it renders. *)
Lemma run_keeps_widget E pressed w s key v :
  session w = Some s →
  widgets s !! key = Some v →
  key ∈ widget_keys (screen (run E pressed w)) →
  ∃ s1, session (run E pressed w) = Some s1 ∧ widgets s1 !! key = Some v.
Proof.
  intros Hs Hv. unfold run. rewrite Hs.
  set (r := {| ss := s; proc := process w; out := [] |}).
  pose proof (page_keeps_widgets E pressed r) as Hkeep. unfold wp in Hkeep.
  destruct (page E pressed r) as [res r']. cbn [snd] in Hkeep.
  destruct (finish_spec res r') as (o & -> & _ & Hkeys). cbn [screen session].
  intros Hin. eexists. split; [done|]. cbn.
  apply map_lookup_filter_Some. split; [by apply Hkeep|done].
Qed.

(** A page with the Next button holds both widgets of the round. *)
Lemma run_next_keys E pressed w s :
  session w = Some s →
  enabled (Press Next) (run E pressed w) = true →
  guess_key (step s) ∈ widget_keys (screen (run E pressed w))
  ∧ correct_key (step s) ∈ widget_keys (screen (run E pressed w)).
Proof.
  intros Hs. unfold run, enabled. rewrite Hs.
  set (r := {| ss := s; proc := process w; out := [] |}).
  destruct (page_buttons E pressed r eq_refl eq_refl) as [Hnext _].
  destruct (page E pressed r) as [res r']. cbn [snd] in Hnext.
  destruct (finish_spec res r') as (o & -> & Hbuttons & Hkeys). cbn [screen].
  rewrite Hbuttons, Hkeys. intros Hb.
  by destruct (Hnext Hb) as (_ & ? & ? & _).
Qed.

(** Within a round every run renders the text input of the round. *)
Lemma run_text_input E pressed w s :
  session w = Some s →
  (step s < length (rows (df s)))%nat →
  guess_key (step s) ∈ widget_keys (screen (run E pressed w)).
Proof.
  intros Hs Hlt. unfold run. rewrite Hs.
  set (r := {| ss := s; proc := process w; out := [] |}).
  pose proof (page_text_input E pressed r Hlt) as Hkey. unfold wp in Hkey.
  destruct (page E pressed r) as [res r']. cbn [snd] in Hkey.
  destruct (finish_spec res r') as (o & -> & _ & Hkeys). cbn [screen].
  by rewrite Hkeys.
Qed.

(** X13: type a guess, choose an answer to "Were you correct?", press
    Next: the record appended holds that very text, and is counted correct
    exactly when the choice was Yes. *)
Theorem typed_guess_is_recorded E w s text choice :
  session w = Some s →
  enabled (Press Next)
    (deliver E (Choose (correct_key (step s)) choice)
       (deliver E (Edit (guess_key (step s)) text) w)) = true →
  ∃ s', session
          (deliver E (Press Next)
             (deliver E (Choose (correct_key (step s)) choice)
                (deliver E (Edit (guess_key (step s)) text) w))) = Some s'
      ∧ step s' = (step s + 1)%nat
      ∧ answers s' = (answers s ++ [ {| guess := text;
                                        correct := String.eqb choice "Yes" |} ])%list.
Proof.
  intros Hs. cbn [deliver].
  set (w0 := set_widget (guess_key (step s)) text w).
  set (s0 := {| df := df s; step := step s; answers := answers s;
                show_real := show_real s;
                widgets := <[guess_key (step s) := text]> (widgets s) |}).
  assert (Hs0 : session w0 = Some s0) by (unfold w0, set_widget; by rewrite Hs).
  destruct (run_frame E None w0 s0 ltac:(done) Hs0)
    as (s1 & Hs1 & Hdf1 & Hstep1 & Hans1 & _).
  unfold s0 in Hdf1, Hstep1, Hans1. cbn [df step answers] in Hdf1, Hstep1, Hans1.
  set (w1 := run E None w0) in *.
  set (w1' := set_widget (correct_key (step s)) choice w1).
  set (s1' := {| df := df s1; step := step s1; answers := answers s1;
                 show_real := show_real s1;
                 widgets := <[correct_key (step s) := choice]> (widgets s1) |}).
  assert (Hs1' : session w1' = Some s1') by (unfold w1', set_widget; by rewrite Hs1).
  intros Hen.
  destruct (run_next E None w1' s1' Hs1' Hen)
    as (s2 & g & c & Hs2 & _ & Hstep2 & Hans2 & Hlt & _).
  unfold s1' in Hstep2, Hans2, Hlt. cbn [step df answers] in Hstep2, Hans2, Hlt.
  rewrite Hdf1, Hstep1 in Hlt. rewrite Hstep1 in Hstep2. rewrite Hans1 in Hans2.
  assert (Hg1 : widgets s1 !! guess_key (step s) = Some text).
  { destruct (run_keeps_widget E None w0 s0 (guess_key (step s)) text Hs0)
      as (s1x & Hs1x & Hv); [apply lookup_insert_eq| |].
    - by apply (run_text_input E None w0 s0 Hs0).
    - fold w1 in Hs1x. by simplify_eq. }
  destruct (run_next_keys E None w1' s1' Hs1' Hen) as [Hgk Hck].
  unfold s1' in Hgk, Hck. cbn [step] in Hgk, Hck. rewrite Hstep1 in Hgk, Hck.
  destruct (run_keeps_widget E None w1' s1' (guess_key (step s)) text Hs1')
    as (s2g & Hs2g & Hg2); [|done|].
  { cbn. rewrite lookup_insert_ne; [done|].
    intros Heq. by apply (guess_key_ne_correct_key _ _ (eq_sym Heq)). }
  destruct (run_keeps_widget E None w1' s1' (correct_key (step s)) choice Hs1')
    as (s2c & Hs2c & Hc2); [apply lookup_insert_eq|done|].
  simplify_eq. rewrite <-Hstep2 in Hg2, Hc2.
  destruct (deliver_next_ok E (run E None w1') s2 text choice Hs2 Hg2 Hc2)
    as (s' & Hs' & _ & Hstep' & Hans' & _).
  exists s'. split; [exact Hs'|]. by rewrite Hstep', Hans', Hstep2, Hans2.
Qed.

Lemma typed_guess_is_recorded_witness :
  ∃ s', session
          (deliver Demo.E (Press Next)
             (deliver Demo.E (Choose "correct_0" "No")
                (deliver Demo.E (Edit "guess_0" "ear") Demo.just_revealed)))
        = Some s'
      ∧ step s' = 1%nat
      ∧ answers s' = [ {| guess := "ear"; correct := false |} ].
Proof.
  destruct (typed_guess_is_recorded Demo.E Demo.just_revealed
              (Demo.session_of Demo.just_revealed) "ear" "No")
    as (s' & Hs' & Hstep & Hans).
  - vm_compute. reflexivity.
  - vm_compute. reflexivity.
  - exists s'. split; [exact Hs'|]. split; [exact Hstep | exact Hans].
Defined.

(** ** Starting a session *)

(** X14: while the manifest lacks a required column and the cache holds
    no frame for it, no sequence of events starts the session: the four keys
    stay unset, nothing is cached or drawn, and every run shows the error
    that names the missing columns. *)
Theorem schema_error_blocks_start E p d evs w :
  cache p !! manifest_key = None →
  read_csv E "manipulation_info.csv" = Ok d →
  missing_cols (normalised_columns d) ≠ [] →
  play E evs (fresh p) = Some w →
  session w = None
  ∧ process w = p
  ∧ (evs ≠ [] →
     screen w = [Traceback (SchemaError (missing_cols (normalised_columns d)))]).
Proof.
  intros Hmiss Hread Hcols.
  assert (Hload : load_metadata_cached E "manipulation_info.csv" ROUNDS
                    (cache p) (entropy p)
                  = (Raise (SchemaError (missing_cols (normalised_columns d))),
                     cache p, entropy p)).
  { unfold load_metadata_cached. unfold manifest_key in Hmiss. rewrite Hmiss.
    unfold load_metadata. rewrite Hread. cbv zeta.
    by rewrite bool_decide_eq_true_2. }
  assert (Hrun : ∀ pressed w0,
            session w0 = None → process w0 = p →
            run E pressed w0 =
              {| session := None; process := p;
                 screen := [Traceback (SchemaError
                                         (missing_cols (normalised_columns d)))] |}).
  { intros pressed w0 Hs0 Hp0. unfold run. rewrite Hs0, Hp0, Hload.
    by destruct p. }
  assert (Hstep : ∀ ev w0,
            session w0 = None → process w0 = p →
            deliver E ev w0 =
              {| session := None; process := p;
                 screen := [Traceback (SchemaError
                                         (missing_cols (normalised_columns d)))] |}).
  { intros ev w0 Hs0 Hp0.
    assert (Hset : ∀ k v, session (set_widget k v w0) = None
                          ∧ process (set_widget k v w0) = p).
    { intros. unfold set_widget. cbn. by rewrite Hs0. }
    destruct ev as [|[]| |]; cbn [deliver]; rewrite ?Hs0;
      apply Hrun; done || apply Hset. }
  assert (Hplay : ∀ evs w0 w1,
            session w0 = None → process w0 = p →
            play E evs w0 = Some w1 →
            session w1 = None ∧ process w1 = p
            ∧ (evs ≠ [] →
               screen w1 = [Traceback (SchemaError
                                         (missing_cols (normalised_columns d)))])).
  { clear evs w. induction evs as [|ev evs IH]; intros w0 w1 Hs0 Hp0; cbn [play].
    - by intros [= <-].
    - destruct (enabled ev w0); [|done]. rewrite (Hstep ev w0 Hs0 Hp0).
      intros Hrest.
      match type of Hrest with
      | play E evs ?w2 = _ =>
          destruct (IH w2 w1 eq_refl eq_refl Hrest) as (? & ? & Hscreen)
      end.
      split; [done|]. split; [done|]. intros _.
      destruct evs as [|ev' evs']; [|by apply Hscreen].
      cbn [play] in Hrest. by injection Hrest as <-. }
  by apply Hplay.
Qed.

Lemma schema_error_blocks_start_witness :
  session (deliver Demo.broken Rerun (fresh Demo.cold)) = None
  ∧ process (deliver Demo.broken Rerun (fresh Demo.cold)) = Demo.cold
  ∧ screen (deliver Demo.broken Rerun (fresh Demo.cold))
    = [Traceback (ValueError "CSV missing required columns: ['real_path']")].
Proof.
  destruct (schema_error_blocks_start Demo.broken Demo.cold Demo.no_real_path
              [Rerun] (deliver Demo.broken Rerun (fresh Demo.cold)))
    as (H1 & H2 & H3).
  - reflexivity.
  - reflexivity.
  - vm_compute. discriminate.
  - reflexivity.
  - split; [exact H1|]. split; [exact H2|]. apply H3. discriminate.
Defined.

(** X15: a session that starts on the process of a session already
    running gets the frame of that session, rows in the same order: the
    manifest is not read again and nothing is drawn from the entropy. *)
Theorem sessions_share_frame E w s :
  reachable E w →
  session w = Some s →
  ∃ s2, session (deliver E Rerun (fresh (process w))) = Some s2
      ∧ df s2 = df s ∧ step s2 = 0%nat ∧ answers s2 = []
      ∧ process (deliver E Rerun (fresh (process w))) = process w.
Proof.
  intros Hreach Hs.
  destruct (reachable_invariant E w Hreach) as (Hw & _ & _).
  destruct (Hw s Hs) as (_ & _ & Hcache).
  pose proof (load_metadata_cached_hit E _ _ _ (entropy (process w)) _ Hcache)
    as Hhit.
  cbn [deliver].
  destruct (run_cases E None (fresh (process w)))
    as [(_ & e & Hl & _) | (s0 & p & -> & [[Hs0 _] | (_ & Hl & Hstep & Hans & _)])].
  - cbn [fresh process] in Hl. unfold manifest_key in Hhit. congruence.
  - done.
  - cbn [fresh process] in Hl. unfold manifest_key in Hhit.
    rewrite Hhit in Hl. injection Hl as Hdf Hc Ht.
    assert (Hp : p = process w) by (destruct p, (process w); cbn in *; congruence).
    set (r := {| ss := s0; proc := p; out := [] |}).
    destruct (page_frame E None r ltac:(done)) as (Hdf' & Hstep' & Hans' & Hproc' & _).
    destruct (page E None r) as [res r']. cbn [snd] in *.
    destruct (finish_spec res r') as (o & -> & _).
    eexists. split; [done|]. cbn.
    rewrite Hdf', Hstep', Hans', Hproc'. cbn. by rewrite <-Hdf, Hstep, Hans.
Qed.

Lemma sessions_share_frame_witness :
  ∃ s2, session (deliver Demo.E Rerun (fresh (process Demo.finished))) = Some s2
      ∧ df s2 = df (Demo.session_of Demo.finished).
Proof.
  destruct (sessions_share_frame Demo.E Demo.finished
              (Demo.session_of Demo.finished)) as (s2 & Hs2 & Hdf & _).
  - apply (play_reachable Demo.E Demo.game (fresh Demo.p0)); [constructor|].
    vm_compute. reflexivity.
  - vm_compute. reflexivity.
  - exists s2. split; [exact Hs2 | exact Hdf].
Defined.
